(** * Ambassador configuration ingestion (ambassador/config.py)

    A shallow embedding of [Config]: the ownership filter and the location
    overrides of [load_all], [process] with its handler dispatch,
    [validate_object] with the schema cache, [safe_store] and the Pragma
    handler, followed by the properties of the ingestion pass.

    Python exceptions are the [Raise] results of an error monad; the
    [Config] object is a record passed from call to call; the logger is a
    field of that record.  A [Resource] is passed by value: the pass gives
    each document of the input sequence its own object, and wherever the
    source mutates a resource after filing it (error annotation in
    [post_error]) the filed copy and the current resource are the mutated
    one, as aliasing makes them. *)

From Stdlib Require Import String Ascii List ZArith Bool Lia.
From stdpp Require Import base option list gmap strings sorting.

Local Open Scope string_scope.

(** ** Strings *)

Module PyStr.

(** [s.startswith(p)] *)
Definition startswith (p s : string) : bool := String.prefix p s.

(** Pieces of [s.split(sep)] for a one-character separator; [cur] holds
    the characters of the piece being read, most recent first. *)
Fixpoint split_from (sep : ascii) (cur : string) (s : string) : list string :=
  match s with
  | EmptyString => [String.rev cur]
  | String c rest =>
      if Ascii.eqb c sep then String.rev cur :: split_from sep EmptyString rest
      else split_from sep (String c cur) rest
  end.

Definition split (sep : ascii) (s : string) : list string :=
  split_from sep EmptyString s.

(** [c.lower()] on one byte: only A-Z change. *)
Definition lower_ascii (c : ascii) : ascii :=
  let n := nat_of_ascii c in
  if (65 <=? n)%nat && (n <=? 90)%nat then ascii_of_nat (n + 32) else c.

(** [s.lower()] *)
Fixpoint lower (s : string) : string :=
  match s with
  | EmptyString => EmptyString
  | String c rest => String (lower_ascii c) (lower rest)
  end.

(** [s.endswith("/")] *)
Fixpoint ends_with_sep (s : string) : bool :=
  match s with
  | EmptyString => false
  | String c EmptyString => Ascii.eqb c "/"
  | String _ rest => ends_with_sep rest
  end.

(** One round of the loop of [posixpath.join]. *)
Definition join2 (path b : string) : string :=
  if startswith "/" b then b
  else if String.eqb path "" || ends_with_sep path then path ++ b
  else path ++ "/" ++ b.

(** [os.path.join(a, *p)] *)
Definition path_join (a : string) (p : list string) : string :=
  fold_left join2 p a.

(** [sorted(l)] for a list of strings. *)
Definition sorted (l : list string) : list string := merge_sort String.le l.

End PyStr.

(** ** Values *)

#[local] Set Warnings "-register-all".

(** A parsed YAML or JSON value. *)
Inductive json : Type :=
| JNull
| JBool (b : bool)
| JNum (n : Z)
| JStr (s : string)
| JArr (items : list json)
| JObj (members : list (string * json)).

(** Python truthiness, as [if v:] tests it. *)
Definition truthy (v : json) : bool :=
  match v with
  | JNull => false
  | JBool b => b
  | JNum n => negb (n =? 0)%Z
  | JStr s => negb (String.eqb s "")
  | JArr items => match items with [] => false | _ => true end
  | JObj members => match members with [] => false | _ => true end
  end.

(** [not s] for an attribute that is a string when present. *)
Definition str_truthy (o : option string) : bool :=
  match o with
  | Some s => negb (String.eqb s "")
  | None => false
  end.

(** ** Exceptions and the error monad *)

Inductive arg : Type :=
| AStr (s : string)
| AStrs (l : list string)
| AJson (v : json)
| ARepr (s : string).

(** A format string with the arguments of its [%] operator. *)
Record text : Type := Text { fmt : string; args : list arg }.

Inductive exn : Type :=
| Exception (msg : text)
| AttributeError (attr : string)
| IndexError
| SchemaError (msg : string)
| HandlerError (msg : string)
| OtherError (class msg : string).

Inductive result (A : Type) : Type :=
| Ok (a : A)
| Raise (e : exn).

Arguments Ok {A} a.
Arguments Raise {A} e.

#[global] Instance result_ret : MRet result := fun A a => Ok a.

#[global] Instance result_fmap : FMap result := fun A B f m =>
  match m with
  | Ok a => Ok (f a)
  | Raise e => Raise e
  end.

#[global] Instance result_bind : MBind result := fun A B k m =>
  match m with
  | Ok a => k a
  | Raise e => Raise e
  end.

(** ** RichStatus *)

(** Modelled from the spec: the class [RichStatus] of ambassador/utils.py
    is not among the sources.  A status is a success with a message or a
    failure with an error text; its truth value is its success. *)
Inductive RichStatus : Type :=
| RS_OK (msg : text)
| RS_Error (error : text).

Definition fromError (error : text) : RichStatus := RS_Error error.
Definition OK (msg : text) : RichStatus := RS_OK msg.

Definition rs_ok (rc : RichStatus) : bool :=
  match rc with
  | RS_OK _ => true
  | RS_Error _ => false
  end.

(** ** Resource *)

(** Modelled from the spec: the class [Resource] of ambassador/resource.py
    is not among the sources.  A resource is one parsed document with its
    provenance: [rkey] and [location], the document keys the pipeline
    reads ([apiVersion], [kind], [name], [ambassador_id], [source]), the
    rest of the body, and the errors attached to it.  [apiVersion], [kind],
    [name] and [source] are strings when present; a key that is absent
    reads as [None], which is falsy. *)
Record Resource : Type := mkResource {
  rkey : string;
  location : string;
  apiVersion : option string;
  kind : option string;
  name : option string;
  ambassador_id : option json;
  source : option string;
  extra : list (string * json);
  r_errors : list RichStatus
}.

Definition set_location (loc : string) (r : Resource) : Resource :=
  mkResource (rkey r) loc (apiVersion r) (kind r) (name r)
             (ambassador_id r) (source r) (extra r) (r_errors r).

(** [resource.post_error(rc.toDict())]: append to the errors of the
    resource. *)
Definition resource_post_error (rc : RichStatus) (r : Resource) : Resource :=
  mkResource (rkey r) (location r) (apiVersion r) (kind r) (name r)
             (ambassador_id r) (source r) (extra r) (r_errors r ++ [rc]).

Definition reserved_keys : list string :=
  ["apiVersion"; "kind"; "name"; "ambassador_id"; "source"].

Definition key_if {A : Type} (k : string) (o : option A) : list string :=
  match o with
  | Some _ => [k]
  | None => []
  end.

(** [resource.keys()]: the keys of the document. *)
Definition keys (r : Resource) : list string :=
  key_if "apiVersion" (apiVersion r) ++ key_if "kind" (kind r) ++
  key_if "name" (name r) ++ key_if "ambassador_id" (ambassador_id r) ++
  key_if "source" (source r) ++
  filter (fun k => k ∉ reserved_keys) (map fst (extra r)).

(** ** Telling resources apart *)

Fixpoint json_eqb (a b : json) : bool :=
  match a, b with
  | JNull, JNull => true
  | JBool x, JBool y => Bool.eqb x y
  | JNum x, JNum y => (x =? y)%Z
  | JStr x, JStr y => String.eqb x y
  | JArr xs, JArr ys =>
      (fix items (xs ys : list json) : bool :=
         match xs, ys with
         | [], [] => true
         | x :: xs, y :: ys => json_eqb x y && items xs ys
         | _, _ => false
         end) xs ys
  | JObj xs, JObj ys =>
      (fix members (xs ys : list (string * json)) : bool :=
         match xs, ys with
         | [], [] => true
         | (k, x) :: xs, (l, y) :: ys =>
             String.eqb k l && json_eqb x y && members xs ys
         | _, _ => false
         end) xs ys
  | _, _ => false
  end.

Fixpoint list_eqb {A : Type} (eqb : A -> A -> bool) (xs ys : list A) : bool :=
  match xs, ys with
  | [], [] => true
  | x :: xs, y :: ys => eqb x y && list_eqb eqb xs ys
  | _, _ => false
  end.

Definition option_eqb {A : Type} (eqb : A -> A -> bool) (x y : option A)
  : bool :=
  match x, y with
  | None, None => true
  | Some a, Some b => eqb a b
  | _, _ => false
  end.

Definition arg_eqb (a b : arg) : bool :=
  match a, b with
  | AStr x, AStr y => String.eqb x y
  | AStrs x, AStrs y => list_eqb String.eqb x y
  | AJson x, AJson y => json_eqb x y
  | ARepr x, ARepr y => String.eqb x y
  | _, _ => false
  end.

Definition text_eqb (a b : text) : bool :=
  String.eqb (fmt a) (fmt b) && list_eqb arg_eqb (args a) (args b).

Definition status_eqb (a b : RichStatus) : bool :=
  match a, b with
  | RS_OK x, RS_OK y => text_eqb x y
  | RS_Error x, RS_Error y => text_eqb x y
  | _, _ => false
  end.

(** Two references to a resource are taken for the same object when the
    resources agree in every field. *)
Definition same_resource (a b : Resource) : bool :=
  String.eqb (rkey a) (rkey b) && String.eqb (location a) (location b) &&
  option_eqb String.eqb (apiVersion a) (apiVersion b) &&
  option_eqb String.eqb (kind a) (kind b) &&
  option_eqb String.eqb (name a) (name b) &&
  option_eqb json_eqb (ambassador_id a) (ambassador_id b) &&
  option_eqb String.eqb (source a) (source b) &&
  list_eqb (fun x y => String.eqb (fst x) (fst y) && json_eqb (snd x) (snd y))
           (extra a) (extra b) &&
  list_eqb status_eqb (r_errors a) (r_errors b).

(** ** The Config aggregate *)

Inductive level : Type := Debug | Warning | Error.

Record Config : Type := mkConfig {
  current_resource : option Resource;
  schemas : gmap string json;
  config : gmap string (gmap string Resource);
  breakers : gmap string Resource;
  outliers : gmap string Resource;
  sources : gmap string Resource;
  location_overrides : gmap string (gmap string string);
  errors : gmap string (list RichStatus);
  fatal_errors : nat;
  object_errors : nat;
  logger : list (level * text)
}.

Definition set_current_resource (v : option Resource) (c : Config) : Config :=
  mkConfig v (schemas c) (config c) (breakers c) (outliers c) (sources c)
           (location_overrides c) (errors c) (fatal_errors c)
           (object_errors c) (logger c).

Definition set_schemas (v : gmap string json) (c : Config) : Config :=
  mkConfig (current_resource c) v (config c) (breakers c) (outliers c)
           (sources c) (location_overrides c) (errors c) (fatal_errors c)
           (object_errors c) (logger c).

Definition set_config (v : gmap string (gmap string Resource)) (c : Config)
  : Config :=
  mkConfig (current_resource c) (schemas c) v (breakers c) (outliers c)
           (sources c) (location_overrides c) (errors c) (fatal_errors c)
           (object_errors c) (logger c).

Definition set_sources (v : gmap string Resource) (c : Config) : Config :=
  mkConfig (current_resource c) (schemas c) (config c) (breakers c)
           (outliers c) v (location_overrides c) (errors c) (fatal_errors c)
           (object_errors c) (logger c).

Definition set_location_overrides (v : gmap string (gmap string string))
  (c : Config) : Config :=
  mkConfig (current_resource c) (schemas c) (config c) (breakers c)
           (outliers c) (sources c) v (errors c) (fatal_errors c)
           (object_errors c) (logger c).

Definition set_errors (v : gmap string (list RichStatus)) (c : Config)
  : Config :=
  mkConfig (current_resource c) (schemas c) (config c) (breakers c)
           (outliers c) (sources c) (location_overrides c) v (fatal_errors c)
           (object_errors c) (logger c).

(** [self.logger.<level>(fmt % args)] *)
Definition log (l : level) (f : string) (a : list arg) (c : Config) : Config :=
  mkConfig (current_resource c) (schemas c) (config c) (breakers c)
           (outliers c) (sources c) (location_overrides c) (errors c)
           (fatal_errors c) (object_errors c) (logger c ++ [(l, Text f a)]).

(** [save_source]: [self.sources[resource.rkey] = resource] *)
Definition save_source (r : Resource) (c : Config) : Config :=
  set_sources (<[rkey r := r]> (sources c)) c.

(** [_reset]: the empty aggregate holding the two bootstrap sources, which
    [Resource.internal_resource()] and [Resource.diagnostics_resource()]
    build. *)
Definition _reset (internal diagnostics : Resource) (c : Config) : Config :=
  let c := log Debug "RESET" [] c in
  save_source diagnostics
    (save_source internal
       (mkConfig None ∅ ∅ ∅ ∅ ∅ ∅ ∅ 0 0 (logger c))).

(** What [json.load(open(path))] does at a path: [OSError], a
    [JSONDecodeError], a parsed document, or any other exception (a file
    that is not text in the expected encoding, for one). *)
Inductive schema_file : Type :=
| NoFile
| Corrupt (e : string)
| Loaded (doc : json)
| Unreadable (e : exn).

(** What [jsonschema.validate(instance, schema)] does. *)
Inductive validation : Type :=
| Valid
| Invalid (e : string)
| BadSchema (e : string).

(** ** The pipeline *)

(** What the pipeline takes from its surroundings: the class variable
    [Config.ambassador_id], the schema directory and the files in it, the
    jsonschema library, and the methods of [Resource] and [RichStatus] it
    calls. *)
Class Env : Type := {
  (** [Config.ambassador_id], the identity this instance answers to *)
  Config_ambassador_id : string;
  (** [self.schema_dir_path] *)
  schema_dir_path : string;
  (** the outcome of [json.load(open(path))], per path *)
  read_schema : string -> schema_file;
  (** [jsonschema.validate(resource.as_dict(), schema)] *)
  jsonschema_validate : Resource -> json -> validation;
  (** ["%s" % resource] *)
  resource_str : Resource -> string;
  (** ["%s" % rc] *)
  status_str : RichStatus -> string;
  (** [Resource.from_resource(resource, kind="Module", **resource.config)] *)
  module_from_resource : Resource -> result Resource
}.

Section Pipeline.

Context {env : Env}.

(** [post_error(rc, resource=None)].  The resource is annotated in
    place: the entry of [sources] and, when it is the resource being
    annotated, [current_resource] see the annotation. *)
Definition post_error (rc : RichStatus) (resource : option Resource)
  (st : Config) : result Config :=
  let resource :=
    match resource with
    | Some r => Some r
    | None => current_resource st
    end in
  match resource with
  | None =>
      Raise (Exception
        (Text "FATAL: trying to post an error from a totally unknown resource??"
              []))
  | Some r =>
      let r' := resource_post_error rc r in
      let st := save_source r' st in
      let st :=
        match current_resource st with
        | Some current =>
            if same_resource current r then set_current_resource (Some r') st
            else st
        | None => st
        end in
      let errs := default [] (errors st !! rkey r) in
      let st := set_errors (<[rkey r := (errs ++ [rc])%list]> (errors st)) st in
      Ok (log Error "%s: %s" [ARepr (resource_str r'); ARepr (status_str rc)] st)
  end.

(** [safe_store(storage_name, resource, allow_log)].  The bucket is keyed
    by [resource.name]: a resource without a name cannot be filed. *)
Definition safe_store (storage_name : string) (resource : Resource)
  (allow_log : bool) (st : Config) : result Config :=
  let storage := default ∅ (config st !! storage_name) in
  match name resource with
  | None => Raise (AttributeError "name")
  | Some n =>
      match storage !! n with
      | Some _ =>
          Raise (Exception
            (Text "%s defines %s %s, which is already present"
               [ARepr (resource_str resource);
                AStr (default "None" (kind resource)); AStr n]))
      | None =>
          let st :=
            if allow_log then
              log Debug "%s: saving %s %s"
                [ARepr (resource_str resource);
                 AStr (default "None" (kind resource)); AStr n] st
            else st in
          Ok (set_config (<[storage_name := <[n := resource]> storage]> (config st)) st)
      end
  end.

(** [save_object(resource, allow_log=False)] *)
Definition save_object (resource : Resource) (allow_log : bool)
  (st : Config) : result Config :=
  match kind resource with
  | None => Raise (AttributeError "kind")
  | Some k => safe_store k resource allow_log st
  end.

(** The body of the loop of [handle_pragma], for one key. *)
Definition pragma_key (resource : Resource) (st : Config) (key : string)
  : Config :=
  if String.eqb key "source" then
    match source resource with
    | Some s =>
        let override := default ∅ (location_overrides st !! rkey resource) in
        let st :=
          set_location_overrides
            (<[rkey resource := <["source" := s]> override]> (location_overrides st))
            st in
        log Debug "PRAGMA: override %s to %s" [AStr (rkey resource); AStr s] st
    | None => st
    end
  else st.

Definition pragma_keylist (resource : Resource) : list string :=
  PyStr.sorted
    (filter (fun x => x ≠ "apiVersion" ∧ x ≠ "kind")
            (PyStr.sorted (keys resource))).

(** [handle_pragma(resource)] *)
Definition handle_pragma (resource : Resource) (st : Config)
  : RichStatus * Config :=
  let keylist := pragma_keylist resource in
  let st := log Debug "PRAGMA: %s" [AStrs keylist] st in
  let st := fold_left (pragma_key resource) keylist st in
  (OK (Text "handled pragma object" []), st).

(** [handle_module(resource)] *)
Definition handle_module (resource : Resource) (st : Config) : result Config :=
  module_resource ← module_from_resource resource;
  safe_store "modules" module_resource true st.

Definition handle_ratelimitservice (resource : Resource) (st : Config)
  : result Config :=
  safe_store "ratelimit_configs" resource true st.

Definition handle_tracingservice (resource : Resource) (st : Config)
  : result Config :=
  safe_store "tracing_configs" resource true st.

Definition handle_authservice (resource : Resource) (st : Config)
  : result Config :=
  safe_store "auth_configs" resource true st.

Definition handle_mapping (resource : Resource) (st : Config) : result Config :=
  safe_store "mappings" resource true st.

(** [getattr(self, handler_name, None)]: the methods of [Config] whose
    name starts with [handle_]. *)
Definition getattr_handler (handler_name : string)
  : option (Resource -> Config -> result Config) :=
  if String.eqb handler_name "handle_pragma" then
    Some (fun r st => Ok (snd (handle_pragma r st)))
  else if String.eqb handler_name "handle_module" then Some handle_module
  else if String.eqb handler_name "handle_ratelimitservice" then
    Some handle_ratelimitservice
  else if String.eqb handler_name "handle_tracingservice" then
    Some handle_tracingservice
  else if String.eqb handler_name "handle_authservice" then
    Some handle_authservice
  else if String.eqb handler_name "handle_mapping" then Some handle_mapping
  else None.

(** The schema version [validate_object] takes from an [apiVersion] that
    starts with the namespace prefix: [apiVersion.split('/')[1]]. *)
Definition schema_version (apiVersion : string) : option string :=
  PyStr.split "/" apiVersion !! 1%nat.

Definition schema_key_of (version kind : string) : string :=
  version ++ "-" ++ kind.

Definition schema_path_of (version kind : string) : string :=
  PyStr.path_join schema_dir_path [version; kind ++ ".schema"].

(** [if schema:] for the cached entry, [None] when there is none. *)
Definition schema_truthy (schema : option json) : bool :=
  match schema with
  | Some j => truthy j
  | None => false
  end.

(** The [try] block of [validate_object] that reads the schema from disk;
    [schema] is the falsy value the cache lookup left.  Only [OSError] and
    [JSONDecodeError] are caught. *)
Definition load_schema (schema_key schema_path : string)
  (schema : option json) (st : Config) : result (option json * Config) :=
  match read_schema schema_path with
  | Loaded doc =>
      Ok (Some doc,
          if truthy doc then set_schemas (<[schema_key := doc]> (schemas st)) st
          else st)
  | NoFile =>
      Ok (schema, log Debug "no schema at %s, skipping" [AStr schema_path] st)
  | Corrupt e =>
      Ok (schema,
          log Warning "corrupt schema at %s, skipping (%s)"
            [AStr schema_path; AStr e] st)
  | Unreadable e => Raise e
  end.

(** [validate_object(resource)] *)
Definition validate_object (resource : Resource) (st : Config)
  : result (RichStatus * Config) :=
  match apiVersion resource, kind resource, name resource with
  | Some apiVersion, Some kind, Some _ =>
      if PyStr.startswith "ambassador/" apiVersion then
        match schema_version apiVersion with
        | None => Raise IndexError
        | Some apiVersion =>
            let schema_key := schema_key_of apiVersion kind in
            let schema := schemas st !! schema_key in
            '(schema, st) ←
              (if schema_truthy schema then Ok (schema, st)
               else load_schema schema_key (schema_path_of apiVersion kind)
                                schema st);
            match schema with
            | Some doc =>
                if truthy doc then
                  match jsonschema_validate resource doc with
                  | Valid => Ok (OK (Text "valid %s" [AStr kind]), st)
                  | Invalid e =>
                      Ok (fromError
                            (Text "not a valid %s: %s" [AStr kind; AStr e]),
                          st)
                  | BadSchema e => Raise (SchemaError e)
                  end
                else Ok (OK (Text "valid %s" [AStr kind]), st)
            | None => Ok (OK (Text "valid %s" [AStr kind]), st)
            end
        end
      else
        Ok (fromError (Text "apiVersion %s unsupported" [AStr apiVersion]), st)
  | _, _, _ =>
      Ok (fromError (Text "must have apiVersion, kind, and name" []), st)
  end.

(** Lines 312-327 of [process]: resolve the handler of the kind, falling
    back to [save_object], and call it; what it raises is raised again. *)
Definition invoke_handler (resource : Resource) (kind : string) (st : Config)
  : result Config :=
  let handler_name := "handle_" ++ PyStr.lower kind in
  match getattr_handler handler_name with
  | None =>
      let st :=
        log Warning "%s: no handler for %s, just saving"
          [ARepr (resource_str resource); AStr kind] st in
      save_object resource false st
  | Some handler =>
      let st :=
        log Debug "%s: handling %s..."
          [ARepr (resource_str resource); AStr kind] st in
      handler resource st
  end.

(** [process(resource)].  A resource is never falsy (it always carries its
    rkey), so the first test of the source never fires.  Past the second
    test the kind is a non-empty string. *)
Definition process (resource : Resource) (st : Config)
  : result (RichStatus * Config) :=
  let st := set_current_resource (Some resource) st in
  if negb (str_truthy (apiVersion resource)) then
    Ok (fromError (Text "need apiVersion" []), st)
  else if negb (str_truthy (kind resource)) then
    Ok (fromError (Text "need kind" []), st)
  else if bool_decide (kind resource = Some "Pragma") then
    Ok (handle_pragma resource st)
  else
    match name resource with
    | None => Ok (fromError (Text "need name" []), st)
    | Some _ =>
        let st := save_source resource st in
        '(rc, st) ← validate_object resource st;
        if negb (rs_ok rc) then Ok (rc, st)
        else
          st ← invoke_handler resource (default "" (kind resource)) st;
          let st := set_current_resource None st in
          Ok (OK (Text "%s object processed successfully"
                    [AStr (default "" (kind resource))]), st)
    end.

(** [Config.ambassador_id in allowed_ids] for a list: only a string can
    equal the identity. *)
Definition id_in (allowed_ids : list json) : bool :=
  existsb (fun v => match v with
                    | JStr s => String.eqb s Config_ambassador_id
                    | _ => false
                    end) allowed_ids.

(** How one round of the loop of [load_all] ends. *)
Inductive flow : Type :=
| Next (st : Config)
| Return (st : Config).

(** Lines 234-238: process the resource and post the error of a failure. *)
Definition process_and_post (resource : Resource) (st : Config)
  : result Config :=
  '(rc, st) ← process resource st;
  if negb (rs_ok rc) then post_error rc (Some resource) st
  else Ok st.

(** Lines 212-215: the location a Pragma recorded for this rkey. *)
Definition apply_override (resource : Resource) (st : Config) : Resource :=
  match location_overrides st !! rkey resource with
  | Some override =>
      set_location (default (rkey resource) (override !! "source")) resource
  | None => resource
  end.

(** Lines 218-227: the ids a resource restricts itself to when the
    configured identity is not among them, [None] when the resource is
    let through. *)
Definition foreign_ids (resource : Resource) : option (list json) :=
  let allowed_ids := default (JStr "default") (ambassador_id resource) in
  if truthy allowed_ids then
    let allowed_ids :=
      match allowed_ids with
      | JArr items => items
      | v => [v]
      end in
    if negb (id_in allowed_ids) then Some allowed_ids else None
  else None.

(** Lines 217-238: the ownership filter and the processing of a resource
    whose location is settled. *)
Definition ingest (resource : Resource) (st : Config) : result flow :=
  match foreign_ids resource with
  | Some allowed_ids =>
      Ok (Return
            (log Debug "LOAD_ALL: skip %s; id %s not in %s"
               [ARepr (resource_str resource); AStr Config_ambassador_id;
                AJson (JArr allowed_ids)] st))
  | None =>
      let st :=
        log Debug "LOAD_ALL: %s @ %s"
          [ARepr (resource_str resource); AStr (location resource)] st in
      st ← process_and_post resource st;
      Ok (Next st)
  end.

(** The body of the loop of [load_all]. *)
Definition load_step (resource : Resource) (st : Config) : result flow :=
  ingest (apply_override resource st) st.

(** The [for] loop of [load_all]; [Return] leaves the method. *)
Fixpoint load_loop (resources : list Resource) (st : Config) : result flow :=
  match resources with
  | [] => Ok (Next st)
  | resource :: rest =>
      f ← load_step resource st;
      match f with
      | Next st => load_loop rest st
      | Return st => Ok (Return st)
      end
  end.

(** [load_all(resources)] *)
Definition load_all (resources : list Resource) (st : Config) : result Config :=
  f ← load_loop resources st;
  match f with
  | Return st => Ok st
  | Next st =>
      if negb (fatal_errors st =? 0)%nat then
        Raise (Exception
          (Text "ERROR ERROR ERROR Unparseable configuration; exiting" []))
      else if bool_decide (errors st ≠ ∅) then
        Ok (log Error "ERROR ERROR ERROR Starting with configuration _errors" [] st)
      else Ok st
  end.

End Pipeline.

(** ** Observations of the aggregate *)

(** [config[bucket][name]] when both exist. *)
Definition stored (bucket n : string) (st : Config) : option Resource :=
  config st !! bucket ≫= fun storage => storage !! n.

(** [location_overrides[rkey]['source']] when both exist. *)
Definition override_source (k : string) (st : Config) : option string :=
  location_overrides st !! k ≫= fun override => override !! "source".

(** The resource is missing [apiVersion], [kind] or, unless it is a Pragma,
    [name]: the three tests [process] makes before it validates. *)
Definition missing_field (r : Resource) : Prop :=
  str_truthy (apiVersion r) = false ∨ str_truthy (kind r) = false ∨
  (kind r ≠ Some "Pragma" ∧ name r = None).

(** The resource passes those tests and is not a Pragma, so [process]
    files it in [sources] and validates it. *)
Definition reaches_validation (r : Resource) : Prop :=
  str_truthy (apiVersion r) = true ∧ str_truthy (kind r) = true ∧
  kind r ≠ Some "Pragma" ∧ is_Some (name r).

(** The aggregate in which [process] calls [validate_object]. *)
Definition at_validation (r : Resource) (st : Config) : Config :=
  save_source r (set_current_resource (Some r) st).

(** Two aggregates with the same intermediate representation and the same
    diagnostics: only the schema cache, the current resource and the log
    may differ. *)
Definition same_ir (st st' : Config) : Prop :=
  config st' = config st ∧ sources st' = sources st ∧
  errors st' = errors st ∧ location_overrides st' = location_overrides st ∧
  fatal_errors st' = fatal_errors st.

(** The log of [st'] is the log of [st] followed by entries none of which
    is at the error level. *)
Definition logs_no_error (st st' : Config) : Prop :=
  ∃ l, logger st' = (logger st ++ l)%list ∧ Forall (fun e => e.1 ≠ Error) l.

(** The aggregate a round of the loop of [load_all] leaves. *)
Definition flow_state (f : flow) : Config :=
  match f with
  | Next st => st
  | Return st => st
  end.

(** The same installation answering to another identity. *)
Definition with_identity (id : string) (env : Env) : Env := {|
  Config_ambassador_id := id;
  schema_dir_path := schema_dir_path;
  read_schema := read_schema;
  jsonschema_validate := jsonschema_validate;
  resource_str := resource_str;
  status_str := status_str;
  module_from_resource := module_from_resource
|}.

(** ** A small installation *)

Module Demo.

Definition mapping_schema : json :=
  JObj [("type", JStr "object"); ("required", JArr [JStr "prefix"])].

(** Schemas for Mapping (well-formed), Empty (the empty document) and
    Broken (not JSON) of version v0; nothing else is on disk. *)
Definition disk (path : string) : schema_file :=
  if String.eqb path "/schemas/v0/Mapping.schema" then Loaded mapping_schema
  else if String.eqb path "/schemas/v0/Empty.schema" then Loaded (JObj [])
  else if String.eqb path "/schemas/v0/Broken.schema" then
    Corrupt "Expecting value: line 1 column 1 (char 0)"
  else NoFile.

(** The Mapping schema asks for a [prefix]. *)
Definition validate (r : Resource) (schema : json) : validation :=
  if existsb (fun kv => String.eqb (fst kv) "prefix") (extra r) then Valid
  else Invalid "'prefix' is a required property".

Definition env : Env := {|
  Config_ambassador_id := "default";
  schema_dir_path := "/schemas";
  read_schema := disk;
  jsonschema_validate := validate;
  resource_str := fun r => "<" ++ rkey r ++ ">";
  status_str := fun rc => if rs_ok rc then "OK" else "ERROR";
  module_from_resource := fun r =>
    Ok (mkResource (rkey r) (location r) (apiVersion r) (Some "Module")
                   (name r) (ambassador_id r) (source r) [] (r_errors r))
|}.

Definition doc (key api knd : string) (nm : option string)
  (body : list (string * json)) : Resource :=
  mkResource key key (Some api) (Some knd) nm None None body [].

Definition internal : Resource :=
  doc "--internal--" "ambassador/v0" "Internal" (Some "Ambassador Internals") [].

Definition diagnostics : Resource :=
  doc "--diagnostics--" "ambassador/v0" "Diagnostics"
      (Some "Ambassador Diagnostics") [].

(** The aggregate a pass starts from. *)
Definition fresh : Config :=
  _reset internal diagnostics (mkConfig None ∅ ∅ ∅ ∅ ∅ ∅ ∅ 0 0 []).

Definition mapping_a : Resource :=
  doc "a.yaml" "ambassador/v0" "Mapping" (Some "a")
      [("prefix", JStr "/a/"); ("service", JStr "a")].

Definition mapping_bad : Resource :=
  doc "bad.yaml" "ambassador/v0" "Mapping" (Some "bad") [("service", JStr "a")].

Definition auth_a : Resource :=
  doc "auth.yaml" "ambassador/v0" "AuthService" (Some "a")
      [("auth_service", JStr "auth:3000")].

(** A document that belongs to another Ambassador. *)
Definition foreign : Resource :=
  mkResource "other.yaml" "other.yaml" (Some "ambassador/v0") (Some "Mapping")
             (Some "other") (Some (JStr "other")) None
             [("prefix", JStr "/o/")] [].

(** A document with an empty [ambassador_id] list. *)
Definition unowned : Resource :=
  mkResource "any.yaml" "any.yaml" (Some "ambassador/v0") (Some "Mapping")
             (Some "any") (Some (JArr [])) None [("prefix", JStr "/any/")] [].

Definition pragma : Resource :=
  mkResource "a.yaml" "a.yaml" (Some "ambassador/v0") (Some "Pragma") None
             None (Some "service a, annotation 1") [("autogenerated", JBool true)] [].

(** Kinds without a handler method. *)
Definition widget_a : Resource :=
  doc "w1.yaml" "ambassador/v0" "Widget" (Some "a") [].

Definition widget_a_again : Resource :=
  doc "w2.yaml" "ambassador/v0" "Widget" (Some "a") [].

Definition empty_a : Resource :=
  doc "e.yaml" "ambassador/v0" "Empty" (Some "a") [].

Definition broken_a : Resource :=
  doc "b.yaml" "ambassador/v0" "Broken" (Some "a") [].

Definition nameless : Resource :=
  doc "n.yaml" "ambassador/v0" "Mapping" None [("prefix", JStr "/n/")].

Definition versioned : Resource :=
  doc "v.yaml" "ambassador/v0/beta" "Mapping" (Some "v") [("prefix", JStr "/v/")].

Definition alien : Resource :=
  doc "x.yaml" "getambassador.io/v1" "Mapping" (Some "x") [("prefix", JStr "/x/")].

(** The aggregate after a pass over the given documents. *)
Definition after (resources : list Resource) : Config :=
  match load_all (env := env) resources fresh with
  | Ok st => st
  | Raise _ => fresh
  end.

End Demo.

(** ** The lookup surface *)

(** [get_config(key)]: [self.config.get(key, None)] *)
Definition get_config (key : string) (st : Config)
  : option (gmap string Resource) :=
  config st !! key.

(** [get_module(module_name)]: an empty bucket is falsy, like no bucket. *)
Definition get_module (module_name : string) (st : Config) : option Resource :=
  match get_config "modules" st with
  | Some modules =>
      if bool_decide (modules ≠ ∅) then modules !! module_name else None
  | None => None
  end.

Section ModuleLookup.

(** [Resource.get(key)] without its default: the value under a key of a
    resource, when the resource has the key. *)
Variable resource_get : Resource -> string -> option json.

(** [module_lookup(module_name, key, default)]; a resource is never
    falsy. *)
Definition module_lookup (module_name key : string) (default_value : json)
  (st : Config) : json :=
  match get_module module_name st with
  | Some module => default default_value (resource_get module key)
  | None => default_value
  end.

End ModuleLookup.

(** ** Invariants of a pass *)

(** Every rkey of the error ledger is an rkey of [sources]. *)
Definition errors_have_sources (st : Config) : Prop :=
  ∀ k, is_Some (errors st !! k) → is_Some (sources st !! k).

(** The schema cache holds no falsy document. *)
Definition cache_truthy (st : Config) : Prop :=
  ∀ k doc, schemas st !! k = Some doc → truthy doc = true.

(** Every record of [location_overrides] has its ['source']. *)
Definition overrides_have_source (st : Config) : Prop :=
  ∀ k override, location_overrides st !! k = Some override →
                is_Some (override !! "source").

(** What a later aggregate of the same pass keeps of an earlier one. *)
Record grows (st st' : Config) : Prop := Grows {
  grows_stored :
    ∀ b n r, stored b n st = Some r → stored b n st' = Some r;
  grows_sources :
    ∀ k, is_Some (sources st !! k) → is_Some (sources st' !! k);
  grows_errors :
    ∀ k es, errors st !! k = Some es →
            ∃ es', errors st' !! k = Some (es ++ es')%list;
  grows_schemas :
    ∀ k doc, schemas st !! k = Some doc → truthy doc = true →
             schemas st' !! k = Some doc;
  grows_overrides :
    ∀ k, is_Some (override_source k st) → is_Some (override_source k st');
  grows_fatal_errors : fatal_errors st' = fatal_errors st;
  grows_object_errors : object_errors st' = object_errors st;
  grows_logger : ∃ l, logger st' = (logger st ++ l)%list;
  grows_errors_have_sources :
    errors_have_sources st → errors_have_sources st';
  grows_cache_truthy : cache_truthy st → cache_truthy st';
  grows_overrides_have_source :
    overrides_have_source st → overrides_have_source st'
}.

(** The bucket of the four handlers that file a resource as it is, by the
    lowercased kind their method name ends in. *)
Definition fixed_bucket (lowered_kind : string) : option string :=
  if String.eqb lowered_kind "ratelimitservice" then Some "ratelimit_configs"
  else if String.eqb lowered_kind "tracingservice" then Some "tracing_configs"
  else if String.eqb lowered_kind "authservice" then Some "auth_configs"
  else if String.eqb lowered_kind "mapping" then Some "mappings"
  else None.

(** Who may process a resource, by its [ambassador_id]. *)
Definition admits (identity : string) (ambassador_id : option json) : Prop :=
  match ambassador_id with
  | None => identity = "default"
  | Some (JStr s) => s = "" ∨ s = identity
  | Some (JArr items) => items = [] ∨ JStr identity ∈ items
  | Some v => truthy v = false
  end.

(** The resource leaves the override [S] of the rkey [R] as it is: it has
    another rkey, or no [source], or the same [source], or a kind that
    [handle_pragma] does not handle. *)
Definition keeps_override (R S : string) (m : Resource) : Prop :=
  rkey m ≠ R ∨ source m = None ∨ source m = Some S ∨
  ∀ k, kind m = Some k → PyStr.lower k ≠ "pragma".

(** ** More documents *)

Module Tour.

(** A Mapping whose kind is written in capitals, under the name of
    [Demo.mapping_a]. *)
Definition mapping_upper : Resource :=
  Demo.doc "A.yaml" "ambassador/v0" "MAPPING" (Some "a") [("prefix", JStr "/A/")].

(** Two documents of kinds without handler that differ in case only. *)
Definition gadget : Resource :=
  Demo.doc "g1.yaml" "ambassador/v0" "Gadget" (Some "g") [].

Definition gadget_upper : Resource :=
  Demo.doc "g2.yaml" "ambassador/v0" "GADGET" (Some "g") [].

(** A document whose kind is [pragma] in small letters. *)
Definition pragma_lower : Resource :=
  mkResource "p.yaml" "p.yaml" (Some "ambassador/v0") (Some "pragma")
             (Some "p") None (Some "somewhere else") [] [].

(** A Pragma without [source]. *)
Definition pragma_idle : Resource :=
  mkResource "i.yaml" "i.yaml" (Some "ambassador/v0") (Some "Pragma") None
             None None [("autogenerated", JBool true)] [].

Definition module_ambassador : Resource :=
  Demo.doc "m.yaml" "ambassador/v0" "Module" (Some "ambassador")
           [("config", JObj [("use_remote_address", JBool true)])].

(** A document restricted to a list of identities. *)
Definition shared : Resource :=
  mkResource "s.yaml" "s.yaml" (Some "ambassador/v0") (Some "Mapping")
             (Some "s") (Some (JArr [JStr "other"; JStr "default"])) None
             [("prefix", JStr "/s/")] [].

(** The body of a resource as [Resource.get] reads it here. *)
Fixpoint assoc (key : string) (body : list (string * json)) : option json :=
  match body with
  | [] => None
  | (k, v) :: rest => if String.eqb k key then Some v else assoc key rest
  end.

Definition body_get (r : Resource) (key : string) : option json :=
  assoc key (extra r).

(** An installation whose schema directory is empty. *)
Definition bare_env : Env := {|
  Config_ambassador_id := "default";
  schema_dir_path := "/nowhere";
  read_schema := fun _ => NoFile;
  jsonschema_validate := Demo.validate;
  resource_str := fun r => "<" ++ rkey r ++ ">";
  status_str := fun rc => if rs_ok rc then "OK" else "ERROR";
  module_from_resource := fun r => Raise (HandlerError "no modules here")
|}.





(** A Pragma whose apiVersion is empty. *)
Definition pragma_unversioned : Resource :=
  mkResource "u.yaml" "u.yaml" (Some "") (Some "Pragma") None
             None (Some "somewhere") [] [].

(** A second Pragma for the rkey of [Demo.pragma]. *)
Definition pragma_again : Resource :=
  mkResource "a.yaml" "a.yaml" (Some "ambassador/v0") (Some "Pragma") None
             None (Some "other place") [] [].

(** A second document under the rkey of [Demo.mapping_a]. *)
Definition mapping_a2 : Resource :=
  Demo.doc "a.yaml" "ambassador/v0" "Mapping" (Some "a2")
           [("prefix", JStr "/a2/")].

(** An installation whose schemas the jsonschema library rejects. *)
Definition rejecting_env : Env := {|
  Config_ambassador_id := "default";
  schema_dir_path := "/schemas";
  read_schema := fun _ => Loaded (JObj [("type", JNum 5)]);
  jsonschema_validate := fun _ _ => BadSchema "5 is not valid under any of the given schemas";
  resource_str := fun r => "<" ++ rkey r ++ ">";
  status_str := fun rc => if rs_ok rc then "OK" else "ERROR";
  module_from_resource := fun r => Raise (HandlerError "no modules here")
|}.

End Tour.

(** * Properties *)

(** ** Strings *)

Example split_two_pieces :
  PyStr.split "/" "ambassador/v0" = ["ambassador"; "v0"].
Proof. reflexivity. Qed.

Example split_keeps_empty_pieces :
  PyStr.split "/" "/a//b/" = [""; "a"; ""; "b"; ""].
Proof. reflexivity. Qed.

Example lower_mixed_case :
  PyStr.lower "RateLimitService" = "ratelimitservice".
Proof. reflexivity. Qed.

Example path_join_relative :
  PyStr.path_join "/schemas" ["v0"; "Mapping.schema"]
  = "/schemas/v0/Mapping.schema".
Proof. reflexivity. Qed.

Example path_join_trailing_separator :
  PyStr.path_join "/schemas/" ["v0"; "Mapping.schema"]
  = "/schemas/v0/Mapping.schema".
Proof. reflexivity. Qed.

Example path_join_absolute_piece :
  PyStr.path_join "/schemas" ["/etc"; "Mapping.schema"] = "/etc/Mapping.schema".
Proof. reflexivity. Qed.

Example sorted_keys :
  PyStr.sorted ["source"; "kind"; "apiVersion"; "name"]
  = ["apiVersion"; "kind"; "name"; "source"].
Proof. vm_compute. reflexivity. Qed.

Lemma split_from_cons (sep : ascii) (s cur : string) :
  ∃ piece pieces, PyStr.split_from sep cur s = piece :: pieces.
Proof.
  revert cur. induction s as [|c s IH]; intros cur; simpl.
  - eauto.
  - destruct (Ascii.eqb c sep); eauto.
Qed.

(** Without a separator in it, a string is its own single piece. *)
Lemma split_from_no_sep (sep : ascii) (s cur : string) :
  (∀ i c, String.get i s = Some c → c ≠ sep) →
  PyStr.split_from sep cur s = [String.rev_app cur s].
Proof.
  revert cur. induction s as [|c s IH]; intros cur Hno; simpl.
  - reflexivity.
  - destruct (Ascii.eqb_spec c sep) as [->|Hc].
    + exfalso. exact (Hno 0%nat sep eq_refl eq_refl).
    + apply IH. intros i d Hi. exact (Hno (S i) d Hi).
Qed.

Lemma startswith_ambassador (s : string) :
  PyStr.startswith "ambassador/" s = true → ∃ rest, s = "ambassador/" ++ rest.
Proof.
  unfold PyStr.startswith. intros H.
  do 11 (destruct s as [|? s]; simpl in H; [discriminate|];
         match type of H with
         | (if ?d then _ else _) = true => destruct d; [subst|discriminate]
         end).
  exists s. reflexivity.
Qed.

(** The version of a supported apiVersion is the first piece of what
    follows the prefix. *)
Lemma schema_version_first_piece (rest : string) :
  schema_version ("ambassador/" ++ rest) = head (PyStr.split "/" rest).
Proof.
  unfold schema_version, PyStr.split.
  change ("ambassador/" ++ rest) with
    (String "a" (String "m" (String "b" (String "a" (String "s" (String "s"
      (String "a" (String "d" (String "o" (String "r" (String "/" rest))))))))))).
  cbn.
  destruct (split_from_cons "/" rest "") as (p & ps & ->). reflexivity.
Qed.

Lemma schema_version_prefix (apiVersion : string) :
  PyStr.startswith "ambassador/" apiVersion = true →
  ∃ version, schema_version apiVersion = Some version.
Proof.
  intros (rest & ->)%startswith_ambassador.
  rewrite schema_version_first_piece. unfold PyStr.split.
  destruct (split_from_cons "/" rest "") as (p & ps & ->). simpl. eauto.
Qed.

(** When nothing but the version follows the prefix, the version is the
    remainder. *)
Lemma schema_version_single_segment (rest : string) :
  (∀ i c, String.get i rest = Some c → c ≠ "/"%char) →
  schema_version ("ambassador/" ++ rest) = Some rest.
Proof.
  intros Hno. rewrite schema_version_first_piece. unfold PyStr.split.
  rewrite split_from_no_sep by exact Hno. reflexivity.
Qed.

(** ** The store *)

Section Store.

Context {env : Env}.

Lemma stored_None_storage (b n : string) (st : Config) :
  stored b n st = None → default ∅ (config st !! b) !! n = None.
Proof.
  unfold stored. destruct (config st !! b) as [m|]; simpl; [done|].
  intros _. apply lookup_empty.
Qed.

Lemma stored_Some_storage (b n : string) (st : Config) (r : Resource) :
  stored b n st = Some r → default ∅ (config st !! b) !! n = Some r.
Proof.
  unfold stored. destruct (config st !! b) as [m|]; simpl; [done|discriminate].
Qed.

Lemma stored_log (b n : string) (l : level) (f : string) (a : list arg)
  (st : Config) :
  stored b n (log l f a st) = stored b n st.
Proof. reflexivity. Qed.

(** A name already in the bucket: the duplicate-name exception. *)
Lemma safe_store_duplicate (b n : string) (r r0 : Resource) (al : bool)
  (st : Config) :
  name r = Some n → stored b n st = Some r0 →
  safe_store b r al st =
    Raise (Exception
      (Text "%s defines %s %s, which is already present"
         [ARepr (resource_str r); AStr (default "None" (kind r)); AStr n])).
Proof.
  intros Hn Hs%stored_Some_storage. unfold safe_store. rewrite Hn, Hs. done.
Qed.

(** A fresh name: the resource is filed under it, and nothing else in the
    aggregate changes but the log. *)
Lemma safe_store_fresh (b n : string) (r : Resource) (al : bool) (st : Config) :
  name r = Some n → stored b n st = None →
  ∃ st', safe_store b r al st = Ok st' ∧
    config st' = <[b := <[n := r]> (default ∅ (config st !! b))]> (config st) ∧
    sources st' = sources st ∧ errors st' = errors st ∧
    schemas st' = schemas st ∧
    location_overrides st' = location_overrides st ∧
    current_resource st' = current_resource st ∧
    fatal_errors st' = fatal_errors st ∧
    logger st' =
      (logger st ++
       if al then
         [(Debug, Text "%s: saving %s %s"
             [ARepr (resource_str r); AStr (default "None" (kind r)); AStr n])]
       else [])%list.
Proof.
  intros Hn Hs%stored_None_storage. unfold safe_store. rewrite Hn, Hs.
  eexists. split; [reflexivity|].
  destruct al; simpl; rewrite ?app_nil_r; done.
Qed.

Lemma stored_insert (b b' n n' : string) (r : Resource) (st st' : Config) :
  config st' = <[b := <[n := r]> (default ∅ (config st !! b))]> (config st) →
  stored b' n' st' =
    if decide (b = b' ∧ n = n') then Some r else stored b' n' st.
Proof.
  intros Hc. unfold stored. rewrite Hc.
  destruct (decide (b = b')) as [<-|Hb].
  - rewrite lookup_insert_eq. simpl.
    destruct (decide (n = n')) as [<-|Hnn].
    + rewrite lookup_insert_eq. rewrite decide_True; done.
    + rewrite lookup_insert_ne by done. rewrite decide_False by (intros [? ?]; congruence).
      destruct (config st !! b); simpl; [done|apply lookup_empty].
  - rewrite lookup_insert_ne by done. rewrite decide_False by (intros [? ?]; congruence). done.
Qed.

(** C2. Storing a resource under a name its bucket already holds raises
    the duplicate-name exception, whatever the bucket and whoever holds
    the name; so once a resource is filed, a second one of the same name
    cannot follow it into its bucket.  Filing a resource in one bucket
    leaves every other bucket as it was, so the same name can still go
    into another bucket exactly as it could before: where that bucket does
    not hold the name already, the second store succeeds and both
    resources are filed, each under the shared name in its own bucket. *)
Theorem safe_store_unique_within_bucket (b1 b2 n : string) (r1 r2 : Resource)
  (al1 al2 : bool) (st st1 : Config) :
  name r1 = Some n → name r2 = Some n → b1 ≠ b2 →
  safe_store b1 r1 al1 st = Ok st1 →
  (∀ (b : string) (r0 : Resource) (al : bool) (st0 : Config),
     stored b n st0 = Some r0 →
     ∃ msg, safe_store b r2 al st0 = Raise (Exception msg)) ∧
  (∃ msg, safe_store b1 r2 al2 st1 = Raise (Exception msg)) ∧
  stored b1 n st1 = Some r1 ∧
  stored b2 n st1 = stored b2 n st ∧
  (stored b2 n st = None →
   ∃ st2, safe_store b2 r2 al2 st1 = Ok st2 ∧
     stored b1 n st2 = Some r1 ∧ stored b2 n st2 = Some r2).
Proof.
  intros Hn1 Hn2 Hb Hst1. split.
  { intros b r0 al st0 Hs. eexists. by eapply safe_store_duplicate. }
  assert (Hf1 : stored b1 n st = None).
  { destruct (stored b1 n st) as [r0|] eqn:Hs; [|done].
    by rewrite (safe_store_duplicate b1 n r1 r0 al1 st Hn1 Hs) in Hst1. }
  destruct (safe_store_fresh b1 n r1 al1 st Hn1 Hf1) as (st1' & Hst1' & Hc1 & _).
  assert (st1' = st1) as -> by congruence.
  pose proof (stored_insert b1 b1 n n r1 st st1 Hc1) as Hs11.
  rewrite decide_True in Hs11 by done.
  pose proof (stored_insert b1 b2 n n r1 st st1 Hc1) as Hs12.
  rewrite decide_False in Hs12 by (intros [? ?]; congruence).
  split; [eexists; by eapply safe_store_duplicate|].
  split; [done|]. split; [done|].
  intros Hf2. rewrite Hf2 in Hs12.
  destruct (safe_store_fresh b2 n r2 al2 st1 Hn2 Hs12) as (st2 & Hst2 & Hc2 & _).
  exists st2. split; [done|].
  rewrite (stored_insert b2 b1 n n r2 st1 st2 Hc2).
  rewrite decide_False by (intros [? ?]; congruence).
  rewrite (stored_insert b2 b2 n n r2 st1 st2 Hc2).
  rewrite decide_True by done. done.
Qed.

End Store.

Lemma safe_store_unique_within_bucket_witness :
  ∃ st1 st2,
    safe_store (env := Demo.env) "mappings" Demo.mapping_a true Demo.fresh
      = Ok st1 ∧
    (∃ msg, safe_store (env := Demo.env) "mappings" Demo.auth_a true st1
            = Raise (Exception msg)) ∧
    safe_store (env := Demo.env) "auth_configs" Demo.auth_a true st1 = Ok st2 ∧
    stored "mappings" "a" st2 = Some Demo.mapping_a ∧
    stored "auth_configs" "a" st2 = Some Demo.auth_a.
Proof.
  eexists.
  destruct (safe_store_unique_within_bucket (env := Demo.env)
              "mappings" "auth_configs" "a" Demo.mapping_a Demo.auth_a
              true true Demo.fresh _ eq_refl eq_refl
              ltac:(discriminate) eq_refl)
    as (_ & Hdup & _ & _ & Hother).
  destruct (Hother eq_refl) as (st2 & Hst2 & Hs1 & Hs2).
  exists st2. split; [reflexivity|]. split; [exact Hdup|].
  split; [exact Hst2|]. split; [exact Hs1|exact Hs2].
Defined.

(** ** Frames: what each method leaves alone *)

Lemma same_ir_refl (st : Config) : same_ir st st.
Proof. by repeat split. Qed.

Lemma same_ir_trans (st1 st2 st3 : Config) :
  same_ir st1 st2 → same_ir st2 st3 → same_ir st1 st3.
Proof. unfold same_ir. intros (?&?&?&?&?) (?&?&?&?&?). repeat split; congruence. Qed.

Lemma logs_no_error_refl (st : Config) : logs_no_error st st.
Proof. exists []. by rewrite app_nil_r. Qed.

Lemma logs_no_error_trans (st1 st2 st3 : Config) :
  logs_no_error st1 st2 → logs_no_error st2 st3 → logs_no_error st1 st3.
Proof.
  intros (l1 & H1 & F1) (l2 & H2 & F2). exists (l1 ++ l2)%list.
  split; [by rewrite H2, H1, app_assoc|by apply Forall_app].
Qed.

Lemma logs_no_error_log (l : level) (f : string) (a : list arg) (st : Config) :
  l ≠ Error → logs_no_error st (log l f a st).
Proof. intros Hl. exists [(l, Text f a)]. split; [done|]. by repeat constructor. Qed.

Section Frames.

Context {env : Env}.

Lemma load_schema_frame (key path : string) (cached : option json)
  (st st' : Config) (schema : option json) :
  load_schema key path cached st = Ok (schema, st') →
  same_ir st st' ∧ logs_no_error st st' ∧
  current_resource st' = current_resource st.
Proof.
  unfold load_schema. intros H.
  destruct (read_schema path) as [|e|doc|e]; simplify_eq.
  - split; [by repeat split|]. split; [by apply logs_no_error_log|done].
  - split; [by repeat split|]. split; [by apply logs_no_error_log|done].
  - destruct (truthy doc);
      (split; [by repeat split|]; split; [|done]);
      exists []; by rewrite app_nil_r.
Qed.

(** Validation touches the schema cache and the log, nothing else. *)
Lemma validate_object_frame (r : Resource) (st st' : Config) (rc : RichStatus) :
  validate_object r st = Ok (rc, st') →
  same_ir st st' ∧ logs_no_error st st' ∧
  current_resource st' = current_resource st.
Proof.
  unfold validate_object. intros H.
  assert (Hrefl : same_ir st st ∧ logs_no_error st st ∧
                  current_resource st = current_resource st)
    by (split; [apply same_ir_refl|]; split; [apply logs_no_error_refl|done]).
  destruct (apiVersion r) as [av|]; [|by simplify_eq].
  destruct (kind r) as [k|]; [|by simplify_eq].
  destruct (name r) as [n|]; [|by simplify_eq].
  destruct (PyStr.startswith "ambassador/" av); [|by simplify_eq].
  destruct (schema_version av) as [v|]; [|done].
  destruct (schema_truthy (schemas st !! schema_key_of v k)) eqn:Hc.
  - simpl in H.
    destruct (schemas st !! schema_key_of v k) as [doc|]; [|by simplify_eq].
    destruct (truthy doc); [|by simplify_eq].
    destruct (jsonschema_validate r doc); by simplify_eq.
  - destruct (load_schema (schema_key_of v k) (schema_path_of v k)
                (schemas st !! schema_key_of v k) st) as [[schema st1]|]
      eqn:Hl; [|done].
    apply load_schema_frame in Hl. simpl in H.
    destruct schema as [doc|]; [|by simplify_eq].
    destruct (truthy doc); [|by simplify_eq].
    destruct (jsonschema_validate r doc); by simplify_eq.
Qed.

End Frames.

(** ** Pragma *)

Section Pragma.

Context {env : Env}.

(** One key of a Pragma: only [location_overrides] at the rkey of the
    Pragma, and the log, can change. *)
Lemma pragma_key_frame (r : Resource) (st : Config) (key : string) :
  let st' := pragma_key r st key in
  config st' = config st ∧ sources st' = sources st ∧
  errors st' = errors st ∧ schemas st' = schemas st ∧
  current_resource st' = current_resource st ∧
  fatal_errors st' = fatal_errors st ∧ logs_no_error st st' ∧
  ∀ k, k ≠ rkey r → location_overrides st' !! k = location_overrides st !! k.
Proof.
  unfold pragma_key.
  destruct (String.eqb key "source"); [destruct (source r) as [s|]|]; simpl;
    repeat (split; [done|]);
    try (split; [apply logs_no_error_refl|done]).
  split; [eexists; split; [reflexivity|by repeat constructor]|].
  intros k Hk. by rewrite lookup_insert_ne.
Qed.

Lemma pragma_key_source (r : Resource) (st : Config) (key s : string) :
  source r = Some s →
  key = "source" ∨ override_source (rkey r) st = Some s →
  override_source (rkey r) (pragma_key r st key) = Some s.
Proof.
  intros Hs Hor. unfold pragma_key.
  destruct (String.eqb_spec key "source") as [->|Hne].
  - rewrite Hs. unfold override_source. simpl.
    rewrite lookup_insert_eq. simpl. by rewrite lookup_insert_eq.
  - by destruct Hor.
Qed.

Lemma pragma_fold_frame (r : Resource) (keylist : list string) (st : Config) :
  let st' := fold_left (pragma_key r) keylist st in
  config st' = config st ∧ sources st' = sources st ∧
  errors st' = errors st ∧ schemas st' = schemas st ∧
  current_resource st' = current_resource st ∧
  fatal_errors st' = fatal_errors st ∧ logs_no_error st st' ∧
  ∀ k, k ≠ rkey r → location_overrides st' !! k = location_overrides st !! k.
Proof.
  revert st. induction keylist as [|key keylist IH]; intros st; simpl.
  - repeat (split; [done|]). split; [apply logs_no_error_refl|done].
  - destruct (IH (pragma_key r st key)) as (?&?&?&?&?&?&?&Ho).
    destruct (pragma_key_frame r st key) as (?&?&?&?&?&?&?&Ho').
    repeat (split; [congruence|]).
    split; [by eapply logs_no_error_trans|].
    intros k Hk. rewrite Ho, Ho'; done.
Qed.

Lemma pragma_fold_source (r : Resource) (keylist : list string) (st : Config)
  (s : string) :
  source r = Some s →
  "source" ∈ keylist ∨ override_source (rkey r) st = Some s →
  override_source (rkey r) (fold_left (pragma_key r) keylist st) = Some s.
Proof.
  intros Hs. revert st.
  induction keylist as [|key keylist IH]; intros st Hor; simpl.
  - destruct Hor as [Hin|]; [by apply elem_of_nil in Hin|done].
  - apply IH.
    destruct (decide (key = "source")) as [->|Hne].
    + right. apply pragma_key_source; auto.
    + destruct Hor as [Hin|Hov].
      * apply elem_of_cons in Hin as [?|?]; [congruence|by left].
      * right. apply pragma_key_source; auto.
Qed.

(** The key of consequence is on the key list of a Pragma that has it. *)
Lemma source_in_keylist (r : Resource) (s : string) :
  source r = Some s → "source" ∈ pragma_keylist r.
Proof.
  intros Hs. unfold pragma_keylist, PyStr.sorted.
  rewrite merge_sort_Permutation. apply list_elem_of_filter.
  split; [split; discriminate|].
  rewrite merge_sort_Permutation. unfold keys. rewrite Hs. simpl.
  do 4 (apply elem_of_app; right). constructor.
Qed.

Lemma handle_pragma_frame (r : Resource) (st : Config) :
  let st' := (handle_pragma r st).2 in
  config st' = config st ∧ sources st' = sources st ∧
  errors st' = errors st ∧ schemas st' = schemas st ∧
  current_resource st' = current_resource st ∧
  fatal_errors st' = fatal_errors st ∧ logs_no_error st st' ∧
  ∀ k, k ≠ rkey r → location_overrides st' !! k = location_overrides st !! k.
Proof.
  unfold handle_pragma. simpl.
  destruct (pragma_fold_frame r (pragma_keylist r)
              (log Debug "PRAGMA: %s" [AStrs (pragma_keylist r)] st))
    as (?&?&?&?&?&?&Hl&?).
  repeat (split; [done|]). split; [|done].
  eapply logs_no_error_trans; [|exact Hl]. by apply logs_no_error_log.
Qed.

Lemma handle_pragma_source (r : Resource) (st : Config) (s : string) :
  source r = Some s →
  override_source (rkey r) (handle_pragma r st).2 = Some s.
Proof.
  intros Hs. unfold handle_pragma. simpl.
  apply pragma_fold_source; [done|]. left. by eapply source_in_keylist.
Qed.

End Pragma.

(** ** process and post_error *)

Section Process.

Context {env : Env}.

Lemma str_truthy_Some (o : option string) :
  str_truthy o = true → ∃ s, o = Some s ∧ s ≠ "".
Proof.
  destruct o as [s|]; simpl; [|discriminate].
  intros H. exists s. split; [done|]. intros ->. discriminate.
Qed.

(** What [process] does with a resource that passes its own tests and is
    not a Pragma: file the source, validate, dispatch. *)
Lemma process_validated (r : Resource) (k : string) (st : Config) :
  reaches_validation r → kind r = Some k →
  process r st =
    '(rc, st1) ← validate_object r (at_validation r st);
    if negb (rs_ok rc) then Ok (rc, st1)
    else
      st2 ← invoke_handler r k st1;
      Ok (OK (Text "%s object processed successfully" [AStr k]),
          set_current_resource None st2).
Proof.
  intros (Ha & Hk & Hp & [n Hn]) Hkind. unfold process, at_validation.
  rewrite Ha, Hk. simpl. rewrite bool_decide_eq_false_2 by done.
  rewrite Hn, Hkind. reflexivity.
Qed.

(** What [process] answers when a required field is missing. *)
Lemma process_missing_field (r : Resource) (st : Config) :
  missing_field r →
  ∃ what, process r st =
    Ok (fromError (Text what []), set_current_resource (Some r) st).
Proof.
  intros Hm. unfold process.
  destruct (str_truthy (apiVersion r)) eqn:Ha; simpl; [|eauto].
  destruct (str_truthy (kind r)) eqn:Hk; simpl; [|eauto].
  destruct Hm as [?|[?|[Hp Hn]]]; [congruence..|].
  rewrite bool_decide_eq_false_2 by done. rewrite Hn. eauto.
Qed.

(** [post_error] with the resource given: the annotated resource is filed
    in [sources], the error joins the ledger, the buckets stay as they
    are. *)
Lemma post_error_given (rc : RichStatus) (r : Resource) (st : Config) :
  ∃ st', post_error rc (Some r) st = Ok st' ∧
    sources st' = <[rkey r := resource_post_error rc r]> (sources st) ∧
    errors st' =
      <[rkey r := (default [] (errors st !! rkey r) ++ [rc])%list]> (errors st) ∧
    config st' = config st ∧ schemas st' = schemas st ∧
    location_overrides st' = location_overrides st ∧
    fatal_errors st' = fatal_errors st.
Proof.
  eexists. split; [reflexivity|]. simpl.
  destruct (current_resource st) as [current|];
    [destruct (same_resource current r)|]; by repeat split.
Qed.

(** C4. When the pipeline processes a resource that is missing
    [apiVersion], [kind] or (not being a Pragma) [name], or a resource
    whose validation fails, the outcome is a failed status that
    [post_error] records: the resource, annotated with that error, is in
    [sources] under its rkey, the error is on its line of the ledger, and
    the buckets of [config] are what they were. *)
Theorem failed_resource_kept_as_source_only (r : Resource) (st : Config) :
  missing_field r ∨
  (reaches_validation r ∧
   ∃ rc st1, validate_object r (at_validation r st) = Ok (rc, st1) ∧
             rs_ok rc = false) →
  ∃ rc st', rs_ok rc = false ∧
    (∃ st1, process r st = Ok (rc, st1)) ∧
    process_and_post r st = Ok st' ∧
    sources st' !! rkey r = Some (resource_post_error rc r) ∧
    errors st' !! rkey r =
      Some (default [] (errors st !! rkey r) ++ [rc])%list ∧
    config st' = config st.
Proof.
  intros [Hm | (Hv & rc & st1 & Hval & Hrc)].
  - destruct (process_missing_field r st Hm) as (what & Hp).
    destruct (post_error_given (fromError (Text what [])) r
                (set_current_resource (Some r) st))
      as (st' & Hpost & Hs & He & Hc & _).
    exists (fromError (Text what [])), st'. split; [done|].
    split; [eauto|]. unfold process_and_post. rewrite Hp. simpl.
    split; [done|]. rewrite Hs, He, Hc, !lookup_insert_eq. done.
  - pose proof Hv as (_ & Hk & _). apply str_truthy_Some in Hk as (k & Hk & _).
    pose proof (process_validated r k st Hv Hk) as Hp.
    rewrite Hval in Hp. simpl in Hp. rewrite Hrc in Hp. simpl in Hp.
    destruct (validate_object_frame _ _ _ _ Hval) as ((Hc1 & _ & He1 & _) & _).
    destruct (post_error_given rc r st1) as (st' & Hpost & Hs & He & Hc & _).
    exists rc, st'. split; [done|]. split; [eauto|].
    unfold process_and_post. rewrite Hp. simpl. rewrite Hrc. simpl.
    split; [done|]. rewrite Hs, He, Hc, !lookup_insert_eq, He1, Hc1. done.
Qed.

End Process.

Lemma failed_resource_kept_as_source_only_witness :
  (∃ rc st', rs_ok rc = false ∧
     (∃ st1, process (env := Demo.env) Demo.nameless Demo.fresh = Ok (rc, st1)) ∧
     process_and_post (env := Demo.env) Demo.nameless Demo.fresh = Ok st' ∧
     sources st' !! "n.yaml" = Some (resource_post_error rc Demo.nameless) ∧
     errors st' !! "n.yaml" =
       Some (default [] (errors Demo.fresh !! "n.yaml") ++ [rc])%list ∧
     config st' = config Demo.fresh) ∧
  (∃ rc st', rs_ok rc = false ∧
     (∃ st1, process (env := Demo.env) Demo.mapping_bad Demo.fresh
             = Ok (rc, st1)) ∧
     process_and_post (env := Demo.env) Demo.mapping_bad Demo.fresh = Ok st' ∧
     sources st' !! "bad.yaml" = Some (resource_post_error rc Demo.mapping_bad) ∧
     errors st' !! "bad.yaml" =
       Some (default [] (errors Demo.fresh !! "bad.yaml") ++ [rc])%list ∧
     config st' = config Demo.fresh).
Proof.
  split.
  - apply (failed_resource_kept_as_source_only (env := Demo.env)
             Demo.nameless Demo.fresh).
    left. right. right. split; [discriminate|reflexivity].
  - apply (failed_resource_kept_as_source_only (env := Demo.env)
             Demo.mapping_bad Demo.fresh).
    right. split.
    + repeat split; [discriminate|eexists; reflexivity].
    + eexists _, _. split; [vm_compute; reflexivity|reflexivity].
Defined.

(** ** Location overrides *)

Section Overrides.

Context {env : Env}.

Lemma safe_store_frame (b : string) (r : Resource) (al : bool)
  (st st' : Config) :
  safe_store b r al st = Ok st' →
  sources st' = sources st ∧ errors st' = errors st ∧
  schemas st' = schemas st ∧
  location_overrides st' = location_overrides st ∧
  fatal_errors st' = fatal_errors st ∧ logs_no_error st st'.
Proof.
  unfold safe_store. destruct (name r) as [n|]; [|done].
  destruct (default ∅ (config st !! b) !! n); [done|].
  intros [= <-]. repeat (split; [by destruct al|]).
  destruct al; simpl.
  - eexists. split; [reflexivity|]. by repeat constructor.
  - exists []. by rewrite app_nil_r.
Qed.

(** A handler leaves the sources, the ledger and the cache alone, and
    touches no location override but that of its own resource. *)
Lemma invoke_handler_frame (r : Resource) (k : string) (st st' : Config) :
  invoke_handler r k st = Ok st' →
  sources st' = sources st ∧ errors st' = errors st ∧
  schemas st' = schemas st ∧ fatal_errors st' = fatal_errors st ∧
  logs_no_error st st' ∧
  ∀ k', k' ≠ rkey r → location_overrides st' !! k' = location_overrides st !! k'.
Proof.
  unfold invoke_handler, getattr_handler.
  set (h := ("handle_" ++ PyStr.lower k)%string).
  assert (Hstore : ∀ b r0 al f a st0,
    safe_store b r0 al (log Debug f a st0) = Ok st' ∨
    safe_store b r0 al (log Warning f a st0) = Ok st' →
    sources st' = sources st0 ∧ errors st' = errors st0 ∧
    schemas st' = schemas st0 ∧ fatal_errors st' = fatal_errors st0 ∧
    logs_no_error st0 st' ∧
    ∀ k', k' ≠ rkey r →
          location_overrides st' !! k' = location_overrides st0 !! k').
  { intros b r0 al f a st0 [H|H];
      apply safe_store_frame in H as (?&?&?&Ho&?&Hl);
      (repeat (split; [done|]); split;
       [eapply logs_no_error_trans; [|exact Hl]; by apply logs_no_error_log
       |intros; by rewrite Ho]). }
  destruct (String.eqb h "handle_pragma").
  { intros [= <-].
    destruct (handle_pragma_frame r
                (log Debug "%s: handling %s..." [ARepr (resource_str r); AStr k] st))
      as (?&?&?&?&?&?&Hl&?).
    repeat (split; [done|]). split; [|done].
    eapply logs_no_error_trans; [|exact Hl]. by apply logs_no_error_log. }
  destruct (String.eqb h "handle_module").
  { unfold handle_module. destruct (module_from_resource r) as [m|]; [|done].
    simpl. intros H. eapply Hstore. by left. }
  repeat (match goal with
          | |- context [String.eqb h ?x] => destruct (String.eqb h x)
          end;
          [intros H; eapply Hstore; by left|]).
  unfold save_object. destruct (kind r); [|done].
  intros H. eapply Hstore. by right.
Qed.

Lemma process_frame (r : Resource) (st st' : Config) (rc : RichStatus) :
  process r st = Ok (rc, st') →
  errors st' = errors st ∧ fatal_errors st' = fatal_errors st ∧
  logs_no_error st st' ∧
  ∀ k', k' ≠ rkey r → location_overrides st' !! k' = location_overrides st !! k'.
Proof.
  unfold process.
  destruct (str_truthy (apiVersion r)) eqn:Ha; simpl;
    [|intros [= <- <-]; repeat (split; [done|]);
      split; [exists []; by rewrite app_nil_r|done]].
  destruct (str_truthy (kind r)) eqn:Hk; simpl;
    [|intros [= <- <-]; repeat (split; [done|]);
      split; [exists []; by rewrite app_nil_r|done]].
  case_bool_decide as Hp.
  { pose proof (handle_pragma_frame r (set_current_resource (Some r) st)) as Hf.
    destruct (handle_pragma r (set_current_resource (Some r) st)) as [rc0 st0].
    intros [= <- <-]. destruct Hf as (_&_&He&_&_&Hfe&Hl&Ho).
    split; [exact He|]. split; [exact Hfe|]. split; [exact Hl|exact Ho]. }
  destruct (name r) as [n|];
    [|intros [= <- <-]; repeat (split; [done|]);
      split; [exists []; by rewrite app_nil_r|done]].
  destruct (validate_object r
              (save_source r (set_current_resource (Some r) st)))
    as [[rc1 st1]|] eqn:Hv; [|done].
  simpl. apply validate_object_frame in Hv as ((_&_&He&Ho&Hf)&Hl&_).
  destruct (rs_ok rc1); simpl.
  - destruct (invoke_handler r (default "" (kind r)) st1) as [st2|] eqn:Hh;
      [|done].
    simpl. intros [= <- <-].
    apply invoke_handler_frame in Hh as (_&He2&_&Hf2&Hl2&Ho2).
    simpl in *. split; [by rewrite He2, He|]. split; [by rewrite Hf2, Hf|].
    split.
    + destruct Hl as (l1 & Hl1 & F1). destruct Hl2 as (l2 & Hl2 & F2).
      exists (l1 ++ l2)%list. split; [|by apply Forall_app].
      simpl in *. by rewrite Hl2, Hl1, app_assoc.
    + intros k' Hk'. rewrite Ho2 by done. by rewrite Ho.
  - intros [= <- <-]. split; [done|]. split; [done|].
    split; [|intros; by rewrite Ho].
    destruct Hl as (l1 & Hl1 & F1). exists l1. done.
Qed.

Lemma process_and_post_overrides (r : Resource) (st st' : Config) :
  process_and_post r st = Ok st' →
  ∀ k', k' ≠ rkey r → location_overrides st' !! k' = location_overrides st !! k'.
Proof.
  unfold process_and_post.
  destruct (process r st) as [[rc st1]|] eqn:Hp; [|done]. simpl.
  apply process_frame in Hp as (_&_&_&Ho).
  destruct (rs_ok rc); simpl.
  - intros [= <-]. done.
  - destruct (post_error_given rc r st1) as (st2 & E & _ & _ & _ & _ & Hov & _).
    rewrite E. intros [= <-] k' Hk'. rewrite Hov. by apply Ho.
Qed.

Lemma rkey_apply_override (r : Resource) (st : Config) :
  rkey (apply_override r st) = rkey r.
Proof. unfold apply_override. by destruct (location_overrides st !! rkey r). Qed.

Lemma load_step_overrides (r : Resource) (st : Config) (f : flow) :
  load_step r st = Ok f →
  ∀ k', k' ≠ rkey r →
        location_overrides (flow_state f) !! k' = location_overrides st !! k'.
Proof.
  unfold load_step, ingest. intros H k' Hk'.
  destruct (foreign_ids (apply_override r st)); [by simplify_eq|].
  match type of H with
  | mbind _ (process_and_post ?r' ?s) = _ =>
      destruct (process_and_post r' s) as [s'|] eqn:Hp; [|done]
  end.
  simpl in H. simplify_eq. simpl.
  eapply process_and_post_overrides in Hp; [|by rewrite rkey_apply_override].
  done.
Qed.

(** Resources of other rkeys leave the override of an rkey as it is. *)
Lemma load_loop_overrides (mid : list Resource) (st : Config) (f : flow)
  (k : string) :
  (∀ m, m ∈ mid → rkey m ≠ k) →
  load_loop mid st = Ok f →
  location_overrides (flow_state f) !! k = location_overrides st !! k.
Proof.
  revert st. induction mid as [|m mid IH]; intros st Hmid; simpl.
  - by intros [= <-].
  - destruct (load_step m st) as [f1|] eqn:Hs; [|done]. simpl.
    pose proof (load_step_overrides m st f1 Hs k) as Ho.
    assert (Hm : k ≠ rkey m).
    { intros ->. eapply Hmid; [constructor|done]. }
    specialize (Ho Hm).
    destruct f1 as [st1|st1]; simpl in Ho.
    + intros H. rewrite <- Ho. apply IH; [|done].
      intros m' Hm'. apply Hmid. by constructor.
    + by intros [= <-].
Qed.

End Overrides.

(** ** Overrides that stay *)

Section OverrideKept.

Context {env : Env}.

Lemma source_not_in_keylist (r : Resource) :
  source r = None → "source" ∉ pragma_keylist r.
Proof.
  intros Hs Hin. unfold pragma_keylist, PyStr.sorted in Hin.
  rewrite merge_sort_Permutation in Hin.
  apply list_elem_of_filter in Hin as [_ Hin].
  rewrite merge_sort_Permutation in Hin. unfold keys in Hin.
  rewrite Hs in Hin. simpl in Hin.
  rewrite !elem_of_app in Hin.
  destruct Hin as [Hin|[Hin|[Hin|[Hin|Hin]]]].
  - destruct (apiVersion r); simpl in Hin; [|by apply elem_of_nil in Hin].
    apply list_elem_of_singleton in Hin. discriminate.
  - destruct (kind r); simpl in Hin; [|by apply elem_of_nil in Hin].
    apply list_elem_of_singleton in Hin. discriminate.
  - destruct (name r); simpl in Hin; [|by apply elem_of_nil in Hin].
    apply list_elem_of_singleton in Hin. discriminate.
  - destruct (ambassador_id r); simpl in Hin; [|by apply elem_of_nil in Hin].
    apply list_elem_of_singleton in Hin. discriminate.
  - apply list_elem_of_filter in Hin as [Hres _]. apply Hres.
    unfold reserved_keys. do 4 right. left.
Qed.

Lemma pragma_fold_idle (r : Resource) (keylist : list string) (st : Config) :
  "source" ∉ keylist → fold_left (pragma_key r) keylist st = st.
Proof.
  revert st. induction keylist as [|key keylist IH]; intros st Hno; simpl.
  - done.
  - assert (Hk : String.eqb key "source" = false).
    { apply String.eqb_neq. intros ->. apply Hno. left. }
    unfold pragma_key at 2. rewrite Hk. apply IH.
    intros Hin. apply Hno. by right.
Qed.

(** The handler of a kind, by the lowercased kind. *)
Lemma invoke_handler_table (r : Resource) (k : string) (st : Config) :
  invoke_handler r k st =
    let handling :=
      log Debug "%s: handling %s..." [ARepr (resource_str r); AStr k] st in
    if String.eqb (PyStr.lower k) "pragma" then Ok (handle_pragma r handling).2
    else if String.eqb (PyStr.lower k) "module" then handle_module r handling
    else
      match fixed_bucket (PyStr.lower k) with
      | Some b => safe_store b r true handling
      | None =>
          save_object r false
            (log Warning "%s: no handler for %s, just saving"
               [ARepr (resource_str r); AStr k] st)
      end.
Proof.
  unfold fixed_bucket, invoke_handler, getattr_handler.
  change ("handle_" ++ PyStr.lower k)%string with
    (String "h" (String "a" (String "n" (String "d" (String "l" (String "e"
      (String "_" (PyStr.lower k)))))))).
  generalize (PyStr.lower k). intros x.
  change (String.eqb (String "h" (String "a" (String "n" (String "d"
            (String "l" (String "e" (String "_" x))))))) "handle_pragma")
    with (String.eqb x "pragma").
  change (String.eqb (String "h" (String "a" (String "n" (String "d"
            (String "l" (String "e" (String "_" x))))))) "handle_module")
    with (String.eqb x "module").
  change (String.eqb (String "h" (String "a" (String "n" (String "d"
            (String "l" (String "e" (String "_" x)))))))
            "handle_ratelimitservice")
    with (String.eqb x "ratelimitservice").
  change (String.eqb (String "h" (String "a" (String "n" (String "d"
            (String "l" (String "e" (String "_" x)))))))
            "handle_tracingservice")
    with (String.eqb x "tracingservice").
  change (String.eqb (String "h" (String "a" (String "n" (String "d"
            (String "l" (String "e" (String "_" x)))))))
            "handle_authservice")
    with (String.eqb x "authservice").
  change (String.eqb (String "h" (String "a" (String "n" (String "d"
            (String "l" (String "e" (String "_" x))))))) "handle_mapping")
    with (String.eqb x "mapping").
  cbv zeta.
  destruct (String.eqb x "pragma"); [done|].
  destruct (String.eqb x "module"); [done|].
  destruct (String.eqb x "ratelimitservice"); [done|].
  destruct (String.eqb x "tracingservice"); [done|].
  destruct (String.eqb x "authservice"); [done|].
  destruct (String.eqb x "mapping"); done.
Qed.

Lemma handle_pragma_keeps (R S : string) (m : Resource) (st : Config) :
  source m = None ∨ source m = Some S →
  override_source R st = Some S →
  override_source R (handle_pragma m st).2 = Some S.
Proof.
  intros [Hs|Hs] Hov.
  - unfold handle_pragma. simpl. rewrite pragma_fold_idle; [done|].
    by apply source_not_in_keylist.
  - destruct (decide (rkey m = R)) as [<-|Hne].
    + by apply handle_pragma_source.
    + destruct (handle_pragma_frame m st) as (_&_&_&_&_&_&_&Ho).
      unfold override_source in *. rewrite Ho; [done|]. congruence.
Qed.

Lemma invoke_handler_not_pragma (m : Resource) (k : string)
  (st st' : Config) :
  String.eqb (PyStr.lower k) "pragma" = false →
  invoke_handler m k st = Ok st' →
  location_overrides st' = location_overrides st.
Proof.
  intros Hk. rewrite invoke_handler_table. cbv zeta. rewrite Hk.
  assert (Hstore : ∀ b r0 al l f a,
    safe_store b r0 al (log l f a st) = Ok st' →
    location_overrides st' = location_overrides st).
  { intros b r0 al l f a H. by apply safe_store_frame in H as (_&_&_&?&_). }
  destruct (String.eqb (PyStr.lower k) "module").
  { unfold handle_module. destruct (module_from_resource m); [|done].
    simpl. apply Hstore. }
  destruct (fixed_bucket (PyStr.lower k)); [apply Hstore|].
  unfold save_object. destruct (kind m); [|done]. apply Hstore.
Qed.

Lemma process_keeps_override (R S : string) (m : Resource)
  (st st' : Config) (rc : RichStatus) :
  (source m = None ∨ source m = Some S ∨
   ∀ k, kind m = Some k → PyStr.lower k ≠ "pragma") →
  process m st = Ok (rc, st') →
  override_source R st = Some S → override_source R st' = Some S.
Proof.
  intros Hcond Hp Hov. unfold process in Hp.
  destruct (str_truthy (apiVersion m)) eqn:Ha; simpl in Hp;
    [|by injection Hp as <- <-].
  destruct (str_truthy (kind m)) eqn:Hk; simpl in Hp;
    [|by injection Hp as <- <-].
  apply str_truthy_Some in Hk as (k & Hk & _).
  case_bool_decide as Hpr.
  { injection Hp as <- <-. apply handle_pragma_keeps; [|done].
    destruct Hcond as [?|[?|Hno]]; [by left|by right|].
    by destruct (Hno _ Hpr). }
  destruct (name m) as [n|]; [|by injection Hp as <- <-].
  destruct (validate_object m
              (save_source m (set_current_resource (Some m) st)))
    as [[rc1 st1]|] eqn:Hv; [|done].
  simpl in Hp. apply validate_object_frame in Hv as ((_&_&_&Ho1&_)&_).
  simpl in Ho1.
  assert (Hov1 : override_source R st1 = Some S).
  { unfold override_source in *. by rewrite Ho1. }
  destruct (rs_ok rc1); simpl in Hp; [|by injection Hp as <- <-].
  rewrite Hk in Hp. simpl in Hp.
  destruct (invoke_handler m k st1) as [st2|] eqn:Hh; [|done].
  simpl in Hp. injection Hp as <- <-.
  change (override_source R st2 = Some S).
  destruct (String.eqb (PyStr.lower k) "pragma") eqn:Hl.
  - rewrite invoke_handler_table in Hh. cbv zeta in Hh. rewrite Hl in Hh.
    injection Hh as <-. apply handle_pragma_keeps; [|done].
    destruct Hcond as [?|[?|Hno]]; [by left|by right|].
    apply String.eqb_eq in Hl. by destruct (Hno _ Hk).
  - apply (invoke_handler_not_pragma _ _ _ _ Hl) in Hh.
    unfold override_source in *. by rewrite Hh.
Qed.

Lemma process_and_post_keeps_override (R S : string) (m : Resource)
  (st st' : Config) :
  (source m = None ∨ source m = Some S ∨
   ∀ k, kind m = Some k → PyStr.lower k ≠ "pragma") →
  process_and_post m st = Ok st' →
  override_source R st = Some S → override_source R st' = Some S.
Proof.
  intros Hcond. unfold process_and_post.
  destruct (process m st) as [[rc st1]|] eqn:Hp; [|done]. simpl.
  destruct (rs_ok rc); simpl.
  - intros [= <-]. by apply (process_keeps_override R S m st st1 rc).
  - destruct (post_error_given rc m st1) as (st2 & E & _ & _ & _ & _ & Ho & _).
    rewrite E. intros [= <-] Hov. unfold override_source. rewrite Ho.
    by apply (process_keeps_override R S m st st1 rc).
Qed.

Lemma load_step_keeps_override (R S : string) (m : Resource) (st : Config)
  (f : flow) :
  keeps_override R S m → load_step m st = Ok f →
  override_source R st = Some S → override_source R (flow_state f) = Some S.
Proof.
  intros [Hne|Hcond] Hstep Hov.
  { pose proof (load_step_overrides m st f Hstep R) as Ho.
    unfold override_source in *. rewrite Ho; [done|]. congruence. }
  unfold load_step, ingest in Hstep.
  assert (Hcond' : source (apply_override m st) = None ∨
                   source (apply_override m st) = Some S ∨
                   ∀ k, kind (apply_override m st) = Some k →
                        PyStr.lower k ≠ "pragma").
  { unfold apply_override.
    by destruct (location_overrides st !! rkey m). }
  destruct (foreign_ids (apply_override m st)); [by injection Hstep as <-|].
  match type of Hstep with
  | mbind _ (process_and_post ?r' ?s) = _ =>
      destruct (process_and_post r' s) as [s'|] eqn:Hp; [|done]
  end.
  simpl in Hstep. injection Hstep as <-. simpl.
  by apply (process_and_post_keeps_override R S) in Hp.
Qed.

Lemma load_loop_keeps_override (R S : string) (mid : list Resource)
  (st : Config) (f : flow) :
  (∀ m, m ∈ mid → keeps_override R S m) → load_loop mid st = Ok f →
  override_source R st = Some S → override_source R (flow_state f) = Some S.
Proof.
  revert st. induction mid as [|m mid IH]; intros st Hmid; simpl.
  - by intros [= <-].
  - destruct (load_step m st) as [f1|] eqn:Hs; [|done]. simpl.
    intros Hl Hov.
    pose proof (load_step_keeps_override R S m st f1
                  (Hmid m ltac:(left)) Hs Hov) as Hov1.
    destruct f1 as [st1|st1]; simpl in Hov1.
    + apply (IH st1); [|done|done]. intros m' Hm'. apply Hmid. by right.
    + by injection Hl as <-.
Qed.

Lemma load_loop_next_app (mid rest : list Resource) (st st2 : Config) :
  load_loop mid st = Ok (Next st2) →
  load_loop (mid ++ rest) st = load_loop rest st2.
Proof.
  revert st. induction mid as [|m mid IH]; intros st; simpl.
  - by intros [= <-].
  - destruct (load_step m st) as [[st1|st1]|]; simpl; [apply IH|done..].
Qed.

End OverrideKept.

Section PragmaOverride.

Context {env : Env}.

Lemma apply_override_source (r : Resource) (st : Config) (s : string) :
  override_source (rkey r) st = Some s →
  apply_override r st = set_location s r.
Proof.
  unfold override_source, apply_override.
  destruct (location_overrides st !! rkey r) as [override|]; simpl; [|done].
  by intros ->.
Qed.

(** C3, as the code has it.  Take a Pragma with a non-empty apiVersion
    that carries [source: S], and let [R] be its rkey.  [process] hands it
    to [handle_pragma] and to nothing else: it is neither validated nor
    filed, the answer is the success status, [load_all] has no error to
    post, and afterwards [location_overrides[R]['source']] is [S] while
    the buckets, the sources, the schema cache and the error ledger are
    what they were.  The override lasts as long as the resources that
    follow leave it alone: a resource of another rkey, one without a
    [source] key, one whose [source] is [S] again, or one whose kind is no
    spelling of Pragma.  After any such run of resources that does not
    end the pass, a resource of rkey [R] has location [S] when the
    ownership filter and [process] see it, and the pass continues from
    there. *)
Theorem pragma_source_overrides_location (r : Resource) (S : string)
  (st : Config) :
  kind r = Some "Pragma" → str_truthy (apiVersion r) = true →
  source r = Some S →
  ∃ st',
    process r st = Ok (OK (Text "handled pragma object" []), st') ∧
    handle_pragma r (set_current_resource (Some r) st)
      = (OK (Text "handled pragma object" []), st') ∧
    process_and_post r st = Ok st' ∧
    override_source (rkey r) st' = Some S ∧
    config st' = config st ∧ sources st' = sources st ∧
    schemas st' = schemas st ∧ errors st' = errors st ∧
    ∀ (mid : list Resource) (st2 : Config) (r2 : Resource)
      (rest : list Resource),
      (∀ m, m ∈ mid → keeps_override (rkey r) S m) →
      load_loop mid st' = Ok (Next st2) →
      rkey r2 = rkey r →
      override_source (rkey r) st2 = Some S ∧
      location (apply_override r2 st2) = S ∧
      load_step r2 st2 = ingest (set_location S r2) st2 ∧
      load_loop (mid ++ r2 :: rest) st' =
        (f ← ingest (set_location S r2) st2;
         match f with
         | Next st3 => load_loop rest st3
         | Return st3 => Ok (Return st3)
         end).
Proof.
  intros Hk Ha Hs.
  pose proof (handle_pragma_frame r (set_current_resource (Some r) st)) as Hf.
  pose proof (handle_pragma_source r (set_current_resource (Some r) st) S Hs)
    as Hov.
  assert (Hrc : (handle_pragma r (set_current_resource (Some r) st)).1
                = OK (Text "handled pragma object" [])) by reflexivity.
  destruct (handle_pragma r (set_current_resource (Some r) st)) as [rc st']
    eqn:Hh.
  simpl in Hf, Hov, Hrc. subst rc.
  destruct Hf as (Hc & Hso & He & Hsc & _ & _ & _ & _).
  assert (Hp : process r st = Ok (OK (Text "handled pragma object" []), st')).
  { unfold process. rewrite Ha, Hk. simpl. by rewrite Hh. }
  exists st'. split; [done|]. split; [done|].
  split; [unfold process_and_post; by rewrite Hp|].
  repeat (split; [done|]).
  intros mid st2 r2 rest Hmid Hloop Hr2.
  pose proof (load_loop_keeps_override (rkey r) S mid st' (Next st2)
                Hmid Hloop Hov) as Hov2.
  simpl in Hov2.
  assert (Hstep : load_step r2 st2 = ingest (set_location S r2) st2).
  { unfold load_step. rewrite (apply_override_source r2 st2 S); [done|].
    by rewrite Hr2. }
  split; [done|]. split.
  { rewrite (apply_override_source r2 st2 S); [done|]. by rewrite Hr2. }
  split; [done|].
  rewrite (load_loop_next_app mid (r2 :: rest) st' st2 Hloop). simpl.
  by rewrite Hstep.
Qed.

End PragmaOverride.

Lemma pragma_source_overrides_location_witness :
  ∃ st' st2,
    process (env := Demo.env) Demo.pragma Demo.fresh
      = Ok (OK (Text "handled pragma object" []), st') ∧
    override_source "a.yaml" st' = Some "service a, annotation 1" ∧
    config st' = config Demo.fresh ∧ sources st' = sources Demo.fresh ∧
    load_loop (env := Demo.env) [Demo.mapping_a] st' = Ok (Next st2) ∧
    override_source "a.yaml" st2 = Some "service a, annotation 1" ∧
    location (apply_override Tour.mapping_a2 st2)
      = "service a, annotation 1" ∧
    load_step (env := Demo.env) Tour.mapping_a2 st2
      = ingest (env := Demo.env)
          (set_location "service a, annotation 1" Tour.mapping_a2) st2.
Proof.
  destruct (pragma_source_overrides_location (env := Demo.env) Demo.pragma
              "service a, annotation 1" Demo.fresh eq_refl eq_refl eq_refl)
    as (st' & Hp & _ & _ & Hov & Hc & Hso & _ & _ & Hlater).
  assert (Hloop : ∃ st2,
            load_loop (env := Demo.env) [Demo.mapping_a] st' = Ok (Next st2)).
  { vm_compute in Hp. injection Hp as <-. eexists. vm_compute. reflexivity. }
  destruct Hloop as [st2 Hloop].
  exists st', st2. split; [exact Hp|].
  split; [exact Hov|]. split; [exact Hc|]. split; [exact Hso|].
  split; [exact Hloop|].
  destruct (Hlater [Demo.mapping_a] st2 Tour.mapping_a2 []) as (H1 & H2 & H3 & _).
  - intros m Hm. apply list_elem_of_singleton in Hm as ->.
    right. left. reflexivity.
  - exact Hloop.
  - reflexivity.
  - split; [exact H1|]. split; [exact H2|exact H3].
Defined.

(** C3, where the claim goes too far.  A Pragma with an empty apiVersion
    and a [source] is turned away by [process] before [handle_pragma]:
    no override is recorded, and [load_all] files the Pragma in the
    sources with the error.  And an override does not last whatever
    follows: after a second Pragma of the same rkey with another
    [source], the next resource of that rkey is stored with the location
    of the second Pragma, not of the first. *)
Lemma pragma_override_departs_from_claim :
  (kind Tour.pragma_unversioned = Some "Pragma" ∧
   source Tour.pragma_unversioned = Some "somewhere" ∧
   ∃ st',
     process_and_post (env := Demo.env) Tour.pragma_unversioned Demo.fresh
       = Ok st' ∧
     override_source "u.yaml" st' = None ∧
     errors st' !! "u.yaml" = Some [fromError (Text "need apiVersion" [])] ∧
     location <$> sources st' !! "u.yaml" = Some "u.yaml") ∧
  (source Demo.pragma = Some "service a, annotation 1" ∧
   rkey Tour.pragma_again = rkey Demo.pragma ∧
   rkey Demo.mapping_a = rkey Demo.pragma ∧
   ∃ st',
     load_all (env := Demo.env)
       [Demo.pragma; Tour.pragma_again; Demo.mapping_a] Demo.fresh = Ok st' ∧
     override_source "a.yaml" st' = Some "other place" ∧
     location <$> stored "mappings" "a" st' = Some "other place").
Proof.
  split.
  - do 2 (split; [reflexivity|]). eexists. split; [vm_compute; reflexivity|].
    repeat split; vm_compute; reflexivity.
  - do 3 (split; [reflexivity|]). eexists. split; [vm_compute; reflexivity|].
    repeat split; vm_compute; reflexivity.
Qed.

(** ** Validation *)

Section Validation.

Context {env : Env}.



(** C7. A resource whose apiVersion lies outside the namespace prefix
    fails validation, and the aggregate is returned as it came: neither
    the schema cache nor the schema directory is looked at, so the answer
    is the same in every aggregate and every installation.  For a
    resource that has its kind and its name, which is every resource
    [process] validates, the answer is the error "apiVersion ...
    unsupported". *)
Theorem unsupported_apiVersion_fails_before_lookup (r : Resource)
  (av : string) :
  apiVersion r = Some av → PyStr.startswith "ambassador/" av = false →
  ∃ error,
    (∀ (env' : Env) (st' : Config),
       validate_object (env := env') r st' = Ok (fromError error, st')) ∧
    (is_Some (kind r) → is_Some (name r) →
     error = Text "apiVersion %s unsupported" [AStr av]) ∧
    ∀ st k, reaches_validation r → kind r = Some k →
      process r st =
        Ok (fromError (Text "apiVersion %s unsupported" [AStr av]),
            at_validation r st).
Proof.
  intros Ha Hp.
  destruct (kind r) as [k|] eqn:Hk; [destruct (name r) as [n|] eqn:Hn|].
  - exists (Text "apiVersion %s unsupported" [AStr av]).
    assert (E : ∀ (e : Env) (s : Config),
      validate_object (env := e) r s =
        Ok (fromError (Text "apiVersion %s unsupported" [AStr av]), s)).
    { intros e s. unfold validate_object. by rewrite Ha, Hk, Hn, Hp. }
    split; [exact E|]. split; [done|].
    intros st k' Hv [= <-]. rewrite (process_validated r k st Hv Hk), E. done.
  - exists (Text "must have apiVersion, kind, and name" []).
    split; [|split].
    + intros e s. unfold validate_object. by rewrite Ha, Hk, Hn.
    + intros _ [? ?]. done.
    + intros st k' (_ & _ & _ & [? ?]). congruence.
  - exists (Text "must have apiVersion, kind, and name" []).
    split; [|split].
    + intros e s. unfold validate_object. by rewrite Ha, Hk.
    + intros [? ?]. done.
    + intros st k' _ ?. congruence.
Qed.

End Validation.



Lemma unsupported_apiVersion_fails_before_lookup_witness :
  (∀ (env' : Env) (st' : Config),
     validate_object (env := env') Demo.alien st' =
       Ok (fromError
             (Text "apiVersion %s unsupported" [AStr "getambassador.io/v1"]),
           st')) ∧
  process (env := Demo.env) Demo.alien Demo.fresh =
    Ok (fromError
          (Text "apiVersion %s unsupported" [AStr "getambassador.io/v1"]),
        at_validation Demo.alien Demo.fresh).
Proof.
  destruct (unsupported_apiVersion_fails_before_lookup (env := Demo.env)
              Demo.alien "getambassador.io/v1" eq_refl eq_refl)
    as (error & Hall & Herr & Hproc).
  rewrite (Herr (ex_intro _ _ eq_refl) (ex_intro _ _ eq_refl)) in Hall.
  split; [exact Hall|].
  apply (Hproc Demo.fresh "Mapping"); [|reflexivity].
  repeat split; [discriminate|eexists; reflexivity].
Defined.

(** C5. For the apiVersion [ambassador/v0/beta] the code takes [v0] as
    the schema version: the piece between the first two slashes, not the
    remainder [v0/beta].  The schema of [Demo.versioned] is read from
    [/schemas/v0/Mapping.schema] and cached under [v0-Mapping]. *)
Theorem schema_version_stops_at_second_slash :
  PyStr.startswith "ambassador/" "ambassador/v0/beta" = true ∧
  schema_version "ambassador/v0/beta" = Some "v0" ∧
  apiVersion Demo.versioned = Some "ambassador/v0/beta" ∧
  validate_object (env := Demo.env) Demo.versioned Demo.fresh =
    Ok (OK (Text "valid %s" [AStr "Mapping"]),
        set_schemas (<[schema_key_of "v0" "Mapping" := Demo.mapping_schema]>
                       (schemas Demo.fresh)) Demo.fresh) ∧
  schema_key_of "v0" "Mapping" = "v0-Mapping" ∧
  schema_path_of (env := Demo.env) "v0" "Mapping" = "/schemas/v0/Mapping.schema" ∧
  @read_schema Demo.env "/schemas/v0/beta/Mapping.schema" = NoFile.
Proof. repeat split; vm_compute; reflexivity. Qed.

(** ** Handlers *)

Section Handlers.

Context {env : Env}.

(** An exception inside [process] leaves [load_all] at once. *)
Lemma load_all_raises (r0 : Resource) (rest : list Resource) (st0 : Config)
  (e : exn) :
  foreign_ids (apply_override r0 st0) = None →
  process (apply_override r0 st0)
    (log Debug "LOAD_ALL: %s @ %s"
       [ARepr (resource_str (apply_override r0 st0));
        AStr (location (apply_override r0 st0))] st0) = Raise e →
  load_all (r0 :: rest) st0 = Raise e.
Proof.
  intros Hf Hp. unfold load_all. simpl. unfold load_step, ingest.
  rewrite Hf. unfold process_and_post. rewrite Hp. reflexivity.
Qed.

(** C8. When the handler of a validated resource raises, [process]
    raises the same exception: no status is returned, so [load_all] has
    nothing to post, and the exception leaves [load_all] before any later
    resource of the sequence is looked at. *)
Theorem handler_exception_leaves_process (r : Resource) (k : string)
  (st st1 : Config) (rc : RichStatus) (e : exn) :
  reaches_validation r → kind r = Some k →
  validate_object r (at_validation r st) = Ok (rc, st1) → rs_ok rc = true →
  invoke_handler r k st1 = Raise e →
  process r st = Raise e ∧
  process_and_post r st = Raise e ∧
  ∀ (r0 : Resource) (rest : list Resource) (st0 : Config),
    apply_override r0 st0 = r → foreign_ids r = None →
    log Debug "LOAD_ALL: %s @ %s"
      [ARepr (resource_str r); AStr (location r)] st0 = st →
    load_all (r0 :: rest) st0 = Raise e.
Proof.
  intros Hv Hk Hval Hrc Hh.
  assert (Hp : process r st = Raise e).
  { rewrite (process_validated r k st Hv Hk), Hval. simpl.
    rewrite Hrc. simpl. by rewrite Hh. }
  split; [done|]. split; [unfold process_and_post; by rewrite Hp|].
  intros r0 rest st0 <- Hf <-. by apply load_all_raises.
Qed.

(** C9, as the code has it.  A resource that validates, whose lowercased
    kind names no handler method and whose name is not yet in the bucket
    of its kind, is filed in that bucket by [save_object]; [process]
    returns the success status, [load_all] posts nothing, the error ledger
    is what it was, the log gains the warning that no handler exists and
    no entry at the error level. *)
Theorem unhandled_kind_is_saved_with_a_warning (r : Resource) (k n : string)
  (st st1 : Config) (rc : RichStatus) :
  reaches_validation r → kind r = Some k → name r = Some n →
  validate_object r (at_validation r st) = Ok (rc, st1) → rs_ok rc = true →
  getattr_handler ("handle_" ++ PyStr.lower k) = None →
  stored k n st = None →
  ∃ st',
    process r st =
      Ok (OK (Text "%s object processed successfully" [AStr k]), st') ∧
    process_and_post r st = Ok st' ∧
    stored k n st' = Some r ∧
    errors st' = errors st ∧
    logs_no_error st st' ∧
    (Warning, Text "%s: no handler for %s, just saving"
                [ARepr (resource_str r); AStr k]) ∈ logger st'.
Proof.
  intros Hv Hk Hn Hval Hrc Hg Hfresh.
  destruct (validate_object_frame _ _ _ _ Hval) as ((Hc1 & _ & He1 & _) & Hl1 & _).
  unfold at_validation in Hc1, He1, Hl1. simpl in Hc1, He1.
  set (w := (Warning, Text "%s: no handler for %s, just saving"
                        [ARepr (resource_str r); AStr k])).
  set (st1w := log Warning "%s: no handler for %s, just saving"
                 [ARepr (resource_str r); AStr k] st1).
  assert (Hf1 : stored k n st1w = None).
  { unfold stored in *. simpl. by rewrite Hc1. }
  destruct (safe_store_fresh k n r false st1w Hn Hf1)
    as (st2 & Hst & Hc2 & _ & He2 & _ & _ & _ & _ & Hlog2).
  assert (Hh : invoke_handler r k st1 = Ok st2).
  { unfold invoke_handler. rewrite Hg. unfold save_object. by rewrite Hk. }
  assert (Hp : process r st =
    Ok (OK (Text "%s object processed successfully" [AStr k]),
        set_current_resource None st2)).
  { rewrite (process_validated r k st Hv Hk), Hval. simpl.
    rewrite Hrc. simpl. by rewrite Hh. }
  exists (set_current_resource None st2). split; [done|].
  split; [unfold process_and_post; by rewrite Hp|].
  split.
  { pose proof (stored_insert k k n n r st1w st2 Hc2) as Hs.
    rewrite decide_True in Hs by done. exact Hs. }
  split; [simpl; rewrite He2; unfold st1w; simpl; by rewrite He1|].
  rewrite app_nil_r in Hlog2. destruct Hl1 as (l1 & Hl1 & F1). simpl in Hl1.
  split.
  - exists (l1 ++ [w])%list. split.
    + simpl. rewrite Hlog2. unfold st1w. simpl. by rewrite Hl1, app_assoc.
    + apply Forall_app. split; [done|]. by repeat constructor.
  - simpl. rewrite Hlog2. unfold st1w. simpl.
    apply elem_of_app. right. constructor.
Qed.

End Handlers.

Lemma handler_exception_leaves_process_witness :
  process (env := Demo.env) Demo.mapping_a (Demo.after [Demo.mapping_a]) =
    Raise (Exception
      (Text "%s defines %s %s, which is already present"
         [ARepr "<a.yaml>"; AStr "Mapping"; AStr "a"])).
Proof.
  refine (proj1 (handler_exception_leaves_process (env := Demo.env)
                   Demo.mapping_a "Mapping" (Demo.after [Demo.mapping_a])
                   _ _ _ _ _ _ _ _)).
  - repeat split; [discriminate|eexists; reflexivity].
  - reflexivity.
  - vm_compute. reflexivity.
  - reflexivity.
  - vm_compute. reflexivity.
Defined.

Lemma unhandled_kind_is_saved_with_a_warning_witness :
  ∃ st',
    process (env := Demo.env) Demo.widget_a Demo.fresh =
      Ok (OK (Text "%s object processed successfully" [AStr "Widget"]), st') ∧
    process_and_post (env := Demo.env) Demo.widget_a Demo.fresh = Ok st' ∧
    stored "Widget" "a" st' = Some Demo.widget_a ∧
    errors st' = errors Demo.fresh ∧
    logs_no_error Demo.fresh st' ∧
    (Warning, Text "%s: no handler for %s, just saving"
                [ARepr "<w1.yaml>"; AStr "Widget"]) ∈ logger st'.
Proof.
  refine (unhandled_kind_is_saved_with_a_warning (env := Demo.env)
            Demo.widget_a "Widget" "a" Demo.fresh _ _ _ _ _ _ _ _ _).
  - repeat split; [discriminate|eexists; reflexivity].
  - reflexivity.
  - reflexivity.
  - vm_compute. reflexivity.
  - reflexivity.
  - reflexivity.
  - reflexivity.
Defined.

(** Two documents of a kind without handler that share a name: the second
    validates, and [process] raises on it. *)
Lemma unhandled_kind_duplicate_raises :
  getattr_handler (env := Demo.env) ("handle_" ++ PyStr.lower "Widget") = None ∧
  stored "Widget" "a" (Demo.after [Demo.widget_a]) = Some Demo.widget_a ∧
  fst <$> validate_object (env := Demo.env) Demo.widget_a_again
            (at_validation Demo.widget_a_again (Demo.after [Demo.widget_a]))
    = Ok (OK (Text "valid %s" [AStr "Widget"])) ∧
  process (env := Demo.env) Demo.widget_a_again (Demo.after [Demo.widget_a]) =
    Raise (Exception
      (Text "%s defines %s %s, which is already present"
         [ARepr "<w2.yaml>"; AStr "Widget"; AStr "a"])) ∧
  load_all (env := Demo.env) [Demo.widget_a; Demo.widget_a_again] Demo.fresh =
    Raise (Exception
      (Text "%s defines %s %s, which is already present"
         [ARepr "<w2.yaml>"; AStr "Widget"; AStr "a"])).
Proof. repeat split; vm_compute; reflexivity. Qed.

(** ** The first resource of a pass *)

Section FirstResource.

Context {env : Env}.

(** What the loop and [load_all] do with a first resource that passes
    the ownership filter: log the load line, process it, go on with the
    rest. *)
Lemma load_loop_past_filter (r : Resource) (rest : list Resource) (st : Config) :
  foreign_ids (apply_override r st) = None →
  load_step r st =
    (st' ← process_and_post (apply_override r st)
             (log Debug "LOAD_ALL: %s @ %s"
                [ARepr (resource_str (apply_override r st));
                 AStr (location (apply_override r st))] st);
     Ok (Next st')) ∧
  load_loop (r :: rest) st =
    (st' ← process_and_post (apply_override r st)
             (log Debug "LOAD_ALL: %s @ %s"
                [ARepr (resource_str (apply_override r st));
                 AStr (location (apply_override r st))] st);
     load_loop rest st') ∧
  load_all (r :: rest) st =
    (st' ← process_and_post (apply_override r st)
             (log Debug "LOAD_ALL: %s @ %s"
                [ARepr (resource_str (apply_override r st));
                 AStr (location (apply_override r st))] st);
     load_all rest st').
Proof.
  intros Hf.
  assert (Hstep : load_step r st =
    (st' ← process_and_post (apply_override r st)
             (log Debug "LOAD_ALL: %s @ %s"
                [ARepr (resource_str (apply_override r st));
                 AStr (location (apply_override r st))] st);
     Ok (Next st'))).
  { unfold load_step, ingest. by rewrite Hf. }
  split; [done|]. unfold load_all. simpl load_loop. rewrite Hstep.
  by destruct (process_and_post _ _).
Qed.

End FirstResource.

(** ** The ownership filter *)

Section Ownership.

Context {env : Env}.

(** A resource that restricts itself to other identities: [load_all]
    logs the skip and returns; the aggregate is otherwise untouched and
    the rest of the sequence is not read. *)
Lemma load_all_returns_at_foreign (r : Resource) (rest : list Resource)
  (st : Config) (ids : list json) :
  foreign_ids (apply_override r st) = Some ids →
  load_all (r :: rest) st =
    Ok (log Debug "LOAD_ALL: skip %s; id %s not in %s"
          [ARepr (resource_str (apply_override r st));
           AStr Config_ambassador_id; AJson (JArr ids)] st).
Proof.
  intros Hf. unfold load_all. simpl. unfold load_step, ingest.
  rewrite Hf. reflexivity.
Qed.

Lemma ambassador_id_apply_override (r : Resource) (st : Config) :
  ambassador_id (apply_override r st) = ambassador_id r.
Proof. unfold apply_override. by destruct (location_overrides st !! rkey r). Qed.

(** C10. A resource whose [ambassador_id] is present and falsy passes the
    ownership filter: the identity is not looked up in it.  A pass that
    meets such a resource first, [load_all (r :: rest)], logs the load
    line, processes the resource (after the location override) and goes
    on with the rest of the sequence; an exception of the processing
    leaves the pass.  This holds whatever identity the installation
    answers to, and the resource is processed in the same way under each
    of them. *)
Theorem falsy_ambassador_id_bypasses_filter (r : Resource) (v : json)
  (st : Config) (rest : list Resource) :
  ambassador_id r = Some v → truthy v = false →
  let r' := apply_override r st in
  let logged :=
    log Debug "LOAD_ALL: %s @ %s"
      [ARepr (resource_str r'); AStr (location r')] st in
  (foreign_ids r' = None ∧
   load_step r st = (st' ← process_and_post r' logged; Ok (Next st')) ∧
   load_loop (r :: rest) st =
     (st' ← process_and_post r' logged; load_loop rest st') ∧
   load_all (r :: rest) st =
     (st' ← process_and_post r' logged; load_all rest st')) ∧
  ∀ id : string,
    foreign_ids (env := with_identity id env) r' = None ∧
    load_step (env := with_identity id env) r st = load_step r st ∧
    load_loop (env := with_identity id env) (r :: rest) st =
      (st' ← process_and_post r' logged;
       load_loop (env := with_identity id env) rest st') ∧
    load_all (env := with_identity id env) (r :: rest) st =
      (st' ← process_and_post r' logged;
       load_all (env := with_identity id env) rest st').
Proof.
  intros Ha Hv r' logged.
  assert (Hf : ∀ e : Env, foreign_ids (env := e) (apply_override r st) = None).
  { intros e. unfold foreign_ids.
    rewrite ambassador_id_apply_override, Ha. simpl. by rewrite Hv. }
  destruct (load_loop_past_filter r rest st (Hf env)) as (Hs & Hl & Hall).
  split; [by repeat split; [apply Hf|..]|].
  intros id.
  destruct (load_loop_past_filter (env := with_identity id env) r rest st
              (Hf _)) as (Hs' & Hl' & Hall').
  split; [apply Hf|]. split; [|split].
  - rewrite Hs. exact Hs'.
  - exact Hl'.
  - exact Hall'.
Qed.

End Ownership.

Lemma falsy_ambassador_id_bypasses_filter_witness :
  foreign_ids (env := Demo.env) (apply_override Demo.unowned Demo.fresh) = None ∧
  load_all (env := Demo.env) [Demo.unowned; Demo.mapping_a] Demo.fresh =
    (st' ← process_and_post (env := Demo.env) Demo.unowned
             (log Debug "LOAD_ALL: %s @ %s"
                [ARepr "<any.yaml>"; AStr "any.yaml"] Demo.fresh);
     load_all (env := Demo.env) [Demo.mapping_a] st') ∧
  (∀ id : string,
     foreign_ids (env := with_identity id Demo.env)
       (apply_override Demo.unowned Demo.fresh) = None ∧
     load_all (env := with_identity id Demo.env)
       [Demo.unowned; Demo.mapping_a] Demo.fresh =
       (st' ← process_and_post (env := Demo.env) Demo.unowned
                (log Debug "LOAD_ALL: %s @ %s"
                   [ARepr "<any.yaml>"; AStr "any.yaml"] Demo.fresh);
        load_all (env := with_identity id Demo.env) [Demo.mapping_a] st')) ∧
  stored "mappings" "any"
    (Demo.after [Demo.unowned; Demo.mapping_a]) = Some Demo.unowned ∧
  stored "mappings" "a"
    (Demo.after [Demo.unowned; Demo.mapping_a]) = Some Demo.mapping_a.
Proof.
  destruct (falsy_ambassador_id_bypasses_filter (env := Demo.env)
              Demo.unowned (JArr []) Demo.fresh [Demo.mapping_a]
              eq_refl eq_refl) as ((Hf & _ & _ & Hall) & Hid).
  split; [exact Hf|]. split; [exact Hall|]. split.
  - intros id. destruct (Hid id) as (Hf' & _ & _ & Hall').
    split; [exact Hf'|exact Hall'].
  - split; vm_compute; reflexivity.
Defined.

(** C1. A document of another Ambassador ahead of a Mapping of this one:
    [load_all] logs the skip and returns.  The foreign document is in no
    bucket, not in [sources] and not in the error ledger; neither is the
    Mapping behind it, which the same pass files when the foreign document
    is not in front of it. *)
Theorem foreign_resource_ends_the_batch :
  foreign_ids (env := Demo.env) Demo.foreign = Some [JStr "other"] ∧
  foreign_ids (env := Demo.env) Demo.mapping_a = None ∧
  load_all (env := Demo.env) [Demo.foreign; Demo.mapping_a] Demo.fresh =
    Ok (log Debug "LOAD_ALL: skip %s; id %s not in %s"
          [ARepr "<other.yaml>"; AStr "default"; AJson (JArr [JStr "other"])]
          Demo.fresh) ∧
  sources (Demo.after [Demo.foreign; Demo.mapping_a]) !! "other.yaml" = None ∧
  errors (Demo.after [Demo.foreign; Demo.mapping_a]) !! "other.yaml" = None ∧
  sources (Demo.after [Demo.foreign; Demo.mapping_a]) !! "a.yaml" = None ∧
  stored "mappings" "a" (Demo.after [Demo.foreign; Demo.mapping_a]) = None ∧
  sources (Demo.after [Demo.mapping_a]) !! "a.yaml" = Some Demo.mapping_a ∧
  stored "mappings" "a" (Demo.after [Demo.mapping_a]) = Some Demo.mapping_a ∧
  stored "mappings" "a" (Demo.after [Demo.mapping_a; Demo.foreign])
    = Some Demo.mapping_a.
Proof. repeat split; vm_compute; reflexivity. Qed.

(** ** A whole pass *)

(** One Mapping and one AuthService with valid schemas: one entry in each
    of the two buckets, no error, and the two documents next to the two
    bootstrap resources in [sources]. *)
Example one_mapping_one_auth_service :
  ∃ st,
    load_all (env := Demo.env) [Demo.mapping_a; Demo.auth_a] Demo.fresh = Ok st ∧
    config st !! "mappings" = Some {["a" := Demo.mapping_a]} ∧
    config st !! "auth_configs" = Some {["a" := Demo.auth_a]} ∧
    dom (config st) = {["mappings"; "auth_configs"]} ∧
    fatal_errors st = 0%nat ∧ errors st = ∅ ∧
    dom (sources st)
    = {["a.yaml"; "auth.yaml"; "--internal--"; "--diagnostics--"]}.
Proof.
  eexists. split; [vm_compute; reflexivity|].
  repeat split; vm_compute; reflexivity.
Qed.

(** A Pragma ahead of the Mapping it annotates, then a Mapping the schema
    rejects: the first Mapping is filed with the location of the Pragma,
    the second is kept in [sources] with its error and in no bucket. *)
Example pragma_then_mappings :
  ∃ st,
    load_all (env := Demo.env)
      [Demo.pragma; Demo.mapping_a; Demo.mapping_bad] Demo.fresh = Ok st ∧
    stored "mappings" "a" st
      = Some (set_location "service a, annotation 1" Demo.mapping_a) ∧
    stored "mappings" "bad" st = None ∧
    r_errors <$> sources st !! "bad.yaml" =
      Some [fromError
              (Text "not a valid %s: %s"
                 [AStr "Mapping"; AStr "'prefix' is a required property"])] ∧
    dom (errors st) = {["bad.yaml"]}.
Proof.
  eexists. split; [vm_compute; reflexivity|].
  repeat split; vm_compute; reflexivity.
Qed.

(** * The pass as a whole *)

(** ** What a pass keeps *)

Lemma grows_of_fields (st st' : Config) :
  config st' = config st → sources st' = sources st →
  errors st' = errors st → schemas st' = schemas st →
  location_overrides st' = location_overrides st →
  fatal_errors st' = fatal_errors st → object_errors st' = object_errors st →
  (∃ l, logger st' = (logger st ++ l)%list) →
  grows st st'.
Proof.
  intros Hc Hs He Hsc Ho Hf Hob Hl.
  split; try done.
  - intros b n r. unfold stored. by rewrite Hc.
  - intros k. by rewrite Hs.
  - intros k es Hk. exists []. by rewrite He, app_nil_r.
  - intros k doc Hk _. by rewrite Hsc.
  - intros k. unfold override_source. by rewrite Ho.
  - unfold errors_have_sources. by rewrite He, Hs.
  - unfold cache_truthy. by rewrite Hsc.
  - unfold overrides_have_source. by rewrite Ho.
Qed.

Lemma grows_refl (st : Config) : grows st st.
Proof. apply grows_of_fields; try done. exists []. by rewrite app_nil_r. Qed.

Lemma grows_trans (st1 st2 st3 : Config) :
  grows st1 st2 → grows st2 st3 → grows st1 st3.
Proof.
  intros [A1 A2 A3 A4 A5 A6 A7 A8 A9 A10 A11] [B1 B2 B3 B4 B5 B6 B7 B8 B9 B10 B11].
  split; try (by auto); try congruence.
  - intros k es Hk. destruct (A3 k es Hk) as (es1 & H1).
    destruct (B3 k _ H1) as (es2 & H2). exists (es1 ++ es2)%list.
    by rewrite H2, app_assoc.
  - destruct A8 as (l1 & H1). destruct B8 as (l2 & H2).
    exists (l1 ++ l2)%list. by rewrite H2, H1, app_assoc.
Qed.

Lemma grows_log (l : level) (f : string) (a : list arg) (st : Config) :
  grows st (log l f a st).
Proof. apply grows_of_fields; try done. by eexists. Qed.

Lemma grows_set_current_resource (v : option Resource) (st : Config) :
  grows st (set_current_resource v st).
Proof. apply grows_of_fields; try done. exists []. by rewrite app_nil_r. Qed.

Lemma grows_save_source (r : Resource) (st : Config) :
  grows st (save_source r st).
Proof.
  assert (Hs : ∀ k, is_Some (sources st !! k) →
                    is_Some (sources (save_source r st) !! k)).
  { intros k Hk. simpl. destruct (decide (rkey r = k)) as [<-|Hne].
    - rewrite lookup_insert_eq. eauto.
    - by rewrite lookup_insert_ne. }
  split; try done.
  - intros k es Hk. exists []. by rewrite app_nil_r.
  - exists []. by rewrite app_nil_r.
  - intros Hinv k Hk. apply Hs. by apply Hinv.
Qed.

(** A document read from disk enters the cache only when the cache has
    nothing usable under its key, and only when it is truthy. *)
Lemma grows_cache_insert (key : string) (doc : json) (st : Config) :
  schema_truthy (schemas st !! key) = false → truthy doc = true →
  grows st (set_schemas (<[key := doc]> (schemas st)) st).
Proof.
  intros Hc Ht. split; try done.
  - intros k es Hk. exists []. by rewrite app_nil_r.
  - intros k doc0 Hk Ht0. simpl. destruct (decide (key = k)) as [<-|Hne].
    + rewrite Hk in Hc. simpl in Hc. congruence.
    + by rewrite lookup_insert_ne.
  - exists []. by rewrite app_nil_r.
  - intros Hinv k doc0. simpl. destruct (decide (key = k)) as [<-|Hne].
    + rewrite lookup_insert_eq. by intros [= <-].
    + rewrite lookup_insert_ne by done. apply Hinv.
Qed.

Section Growth.

Context {env : Env}.

Lemma load_schema_grows (key path : string) (st st' : Config)
  (schema : option json) :
  schema_truthy (schemas st !! key) = false →
  load_schema key path (schemas st !! key) st = Ok (schema, st') →
  grows st st'.
Proof.
  intros Hc. unfold load_schema.
  destruct (read_schema path) as [|e|doc|e]; [| | |done]; intros [= <- <-];
    [apply grows_log..|].
  destruct (truthy doc) eqn:Ht; [by apply grows_cache_insert|apply grows_refl].
Qed.

Lemma validate_object_grows (r : Resource) (st st' : Config) (rc : RichStatus) :
  validate_object r st = Ok (rc, st') → grows st st'.
Proof.
  unfold validate_object. intros H.
  destruct (apiVersion r) as [av|]; [|simplify_eq; apply grows_refl].
  destruct (kind r) as [k|]; [|simplify_eq; apply grows_refl].
  destruct (name r) as [n|]; [|simplify_eq; apply grows_refl].
  destruct (PyStr.startswith "ambassador/" av); [|simplify_eq; apply grows_refl].
  destruct (schema_version av) as [v|]; [|done].
  destruct (schema_truthy (schemas st !! schema_key_of v k)) eqn:Hc.
  - simpl in H.
    destruct (schemas st !! schema_key_of v k) as [doc|];
      [|simplify_eq; apply grows_refl].
    destruct (truthy doc); [|simplify_eq; apply grows_refl].
    destruct (jsonschema_validate r doc); simplify_eq; apply grows_refl.
  - destruct (load_schema (schema_key_of v k) (schema_path_of v k)
                (schemas st !! schema_key_of v k) st) as [[schema st1]|]
      eqn:Hl; [|done].
    apply load_schema_grows in Hl; [|done]. simpl in H.
    destruct schema as [doc|]; [|by simplify_eq].
    destruct (truthy doc); [|by simplify_eq].
    destruct (jsonschema_validate r doc); by simplify_eq.
Qed.

(** [safe_store] files under a fresh name or raises. *)
Lemma safe_store_grows (b : string) (r : Resource) (al : bool)
  (st st' : Config) :
  safe_store b r al st = Ok st' → grows st st'.
Proof.
  unfold safe_store. destruct (name r) as [n|]; [|done].
  destruct (default ∅ (config st !! b) !! n) eqn:Hfresh; [done|].
  intros [= <-].
  set (st1 := if al then log Debug "%s: saving %s %s"
                     [ARepr (resource_str r);
                      AStr (default "None" (kind r)); AStr n] st else st).
  assert (H1 : grows st st1) by (destruct al; [apply grows_log|apply grows_refl]).
  eapply grows_trans; [exact H1|].
  assert (Hc1 : config st1 = config st) by by destruct al.
  split; try done.
  - intros b' n' r0 Hs.
    rewrite (stored_insert b b' n n' r st1
               (set_config (<[b:=<[n:=r]> (default ∅ (config st !! b))]>
                              (config st1)) st1)).
    + destruct (decide (b = b' ∧ n = n')) as [[<- <-]|]; [|done].
      unfold stored in Hs. rewrite Hc1 in Hs.
      destruct (config st !! b); simpl in *; congruence.
    + simpl. by rewrite Hc1.
  - intros k es Hk. exists []. by rewrite app_nil_r.
  - exists []. by rewrite app_nil_r.
Qed.

Lemma pragma_key_grows (r : Resource) (st : Config) (key : string) :
  grows st (pragma_key r st key).
Proof.
  unfold pragma_key.
  destruct (String.eqb key "source"); [|apply grows_refl].
  destruct (source r) as [s|]; [|apply grows_refl].
  eapply grows_trans; [|apply grows_log].
  split; try done.
  - intros k es Hk. exists []. by rewrite app_nil_r.
  - intros k [s0 Hk]. unfold override_source in *. simpl.
    destruct (decide (rkey r = k)) as [<-|Hne].
    + rewrite lookup_insert_eq. simpl. rewrite lookup_insert_eq. eauto.
    + rewrite lookup_insert_ne by done. eauto.
  - exists []. by rewrite app_nil_r.
  - intros Hinv k override. simpl.
    destruct (decide (rkey r = k)) as [<-|Hne].
    + rewrite lookup_insert_eq. intros [= <-]. rewrite lookup_insert_eq. eauto.
    + rewrite lookup_insert_ne by done. apply Hinv.
Qed.

Lemma pragma_fold_grows (r : Resource) (keylist : list string) (st : Config) :
  grows st (fold_left (pragma_key r) keylist st).
Proof.
  revert st. induction keylist as [|key keylist IH]; intros st; simpl.
  - apply grows_refl.
  - eapply grows_trans; [apply pragma_key_grows|apply IH].
Qed.

Lemma handle_pragma_grows (r : Resource) (st : Config) :
  grows st (handle_pragma r st).2.
Proof.
  unfold handle_pragma. simpl.
  eapply grows_trans; [|apply pragma_fold_grows]. apply grows_log.
Qed.

Lemma invoke_handler_grows (r : Resource) (k : string) (st st' : Config) :
  invoke_handler r k st = Ok st' → grows st st'.
Proof.
  unfold invoke_handler, getattr_handler.
  set (h := ("handle_" ++ PyStr.lower k)%string).
  assert (Hstore : ∀ b r0 al l f a,
    safe_store b r0 al (log l f a st) = Ok st' → grows st st').
  { intros b r0 al l f a H. eapply grows_trans; [apply grows_log|].
    by eapply safe_store_grows. }
  destruct (String.eqb h "handle_pragma").
  { intros [= <-]. eapply grows_trans; [apply grows_log|].
    apply handle_pragma_grows. }
  destruct (String.eqb h "handle_module").
  { unfold handle_module. destruct (module_from_resource r) as [m|]; [|done].
    simpl. apply Hstore. }
  repeat (match goal with
          | |- context [String.eqb h ?x] => destruct (String.eqb h x)
          end; [apply Hstore|]).
  unfold save_object. destruct (kind r); [|done]. apply Hstore.
Qed.

Lemma process_grows (r : Resource) (st st' : Config) (rc : RichStatus) :
  process r st = Ok (rc, st') → grows st st'.
Proof.
  unfold process.
  destruct (str_truthy (apiVersion r)); simpl;
    [|intros [= <- <-]; apply grows_set_current_resource].
  destruct (str_truthy (kind r)); simpl;
    [|intros [= <- <-]; apply grows_set_current_resource].
  case_bool_decide.
  { pose proof (handle_pragma_grows r (set_current_resource (Some r) st)) as Hg.
    destruct (handle_pragma r (set_current_resource (Some r) st)) as [rc0 st0].
    intros [= <- <-]. eapply grows_trans; [|exact Hg].
    apply grows_set_current_resource. }
  destruct (name r) as [n|];
    [|intros [= <- <-]; apply grows_set_current_resource].
  destruct (validate_object r
              (save_source r (set_current_resource (Some r) st)))
    as [[rc1 st1]|] eqn:Hv; [|done].
  simpl. apply validate_object_grows in Hv.
  assert (H1 : grows st st1).
  { eapply grows_trans; [apply grows_set_current_resource|].
    eapply grows_trans; [apply grows_save_source|exact Hv]. }
  destruct (rs_ok rc1); simpl; [|by intros [= <- <-]].
  destruct (invoke_handler r (default "" (kind r)) st1) as [st2|] eqn:Hh; [|done].
  simpl. intros [= <- <-]. apply invoke_handler_grows in Hh.
  eapply grows_trans; [exact H1|].
  eapply grows_trans; [exact Hh|apply grows_set_current_resource].
Qed.

Lemma post_error_grows (rc : RichStatus) (o : option Resource)
  (st st' : Config) :
  post_error rc o st = Ok st' → grows st st'.
Proof.
  unfold post_error.
  destruct (match o with Some r => Some r | None => current_resource st end)
    as [r|]; [|done].
  intros [= <-]. eapply grows_trans; [|apply grows_log].
  set (r' := resource_post_error rc r).
  set (st1 := match current_resource st with
              | Some current =>
                  if same_resource current r
                  then set_current_resource (Some r') (save_source r' st)
                  else save_source r' st
              | None => save_source r' st
              end).
  assert (Hf : config st1 = config st ∧
               sources st1 = <[rkey r := r']> (sources st) ∧
               errors st1 = errors st ∧ schemas st1 = schemas st ∧
               location_overrides st1 = location_overrides st ∧
               fatal_errors st1 = fatal_errors st ∧
               object_errors st1 = object_errors st ∧
               logger st1 = logger st).
  { unfold st1. destruct (current_resource st) as [c|];
      [destruct (same_resource c r)|]; by repeat split. }
  destruct Hf as (Hc & Hs & He & Hsc & Ho & Hfe & Hoe & Hl).
  clearbody st1. split; simpl; try done.
  - intros b n r0. unfold stored. simpl. by rewrite Hc.
  - intros k Hk. rewrite Hs. destruct (decide (rkey r = k)) as [<-|Hne].
    + rewrite lookup_insert_eq. eauto.
    + by rewrite lookup_insert_ne.
  - intros k es Hk. rewrite He. destruct (decide (rkey r = k)) as [<-|Hne].
    + rewrite lookup_insert_eq, Hk. simpl. eauto.
    + rewrite lookup_insert_ne by done. exists []. by rewrite app_nil_r.
  - intros k doc Hk _. by rewrite Hsc.
  - intros k. unfold override_source. simpl. by rewrite Ho.
  - exists []. by rewrite Hl, app_nil_r.
  - intros Hinv k. simpl. rewrite He, Hs.
    destruct (decide (rkey r = k)) as [<-|Hne].
    + rewrite !lookup_insert_eq. eauto.
    + rewrite !lookup_insert_ne by done. apply Hinv.
  - unfold cache_truthy. simpl. by rewrite Hsc.
  - unfold overrides_have_source. simpl. by rewrite Ho.
Qed.

Lemma process_and_post_grows (r : Resource) (st st' : Config) :
  process_and_post r st = Ok st' → grows st st'.
Proof.
  unfold process_and_post.
  destruct (process r st) as [[rc st1]|] eqn:Hp; [|done]. simpl.
  apply process_grows in Hp.
  destruct (rs_ok rc); simpl.
  - by intros [= <-].
  - intros H. apply post_error_grows in H. by eapply grows_trans.
Qed.

Lemma ingest_grows (r : Resource) (st : Config) (f : flow) :
  ingest r st = Ok f → grows st (flow_state f).
Proof.
  unfold ingest. destruct (foreign_ids r).
  - intros [= <-]. apply grows_log.
  - match goal with
    | |- mbind _ (process_and_post ?r' ?s) = _ → _ =>
        destruct (process_and_post r' s) as [s'|] eqn:Hp; [|done]
    end.
    simpl. intros [= <-]. simpl. apply process_and_post_grows in Hp.
    eapply grows_trans; [apply grows_log|exact Hp].
Qed.

Lemma load_loop_grows (resources : list Resource) (st : Config) (f : flow) :
  load_loop resources st = Ok f → grows st (flow_state f).
Proof.
  revert st. induction resources as [|r rest IH]; intros st; simpl.
  - intros [= <-]. apply grows_refl.
  - destruct (load_step r st) as [f1|] eqn:Hs; [|done]. simpl.
    apply ingest_grows in Hs.
    destruct f1 as [st1|st1]; simpl in Hs.
    + intros H. apply IH in H. by eapply grows_trans.
    + by intros [= <-].
Qed.

Lemma load_all_grows (resources : list Resource) (st st' : Config) :
  load_all resources st = Ok st' → grows st st'.
Proof.
  unfold load_all.
  destruct (load_loop resources st) as [f|] eqn:Hl; [|done]. simpl.
  apply load_loop_grows in Hl. destruct f as [st1|st1]; simpl in Hl.
  - destruct (negb (fatal_errors st1 =? 0)%nat); [done|].
    case_bool_decide; intros [= <-]; [|done].
    eapply grows_trans; [exact Hl|apply grows_log].
  - by intros [= <-].
Qed.

End Growth.

Section PassInvariants.

Context {env : Env}.

(** X1. A resource filed in a bucket stays there, as it is, through the
    rest of the pass: whatever [load_all] goes on to process, and
    wherever its loop stops, the entry is neither replaced nor removed. *)
Theorem filed_resources_are_never_replaced (resources : list Resource)
  (st : Config) (b n : string) (r : Resource) :
  stored b n st = Some r →
  (∀ f, load_loop resources st = Ok f → stored b n (flow_state f) = Some r) ∧
  (∀ st', load_all resources st = Ok st' → stored b n st' = Some r).
Proof.
  intros Hs. split.
  - intros f Hl. by apply (grows_stored _ _ (load_loop_grows _ _ _ Hl)).
  - intros st' Hl. by apply (grows_stored _ _ (load_all_grows _ _ _ Hl)).
Qed.

(** X2. A pass keeps the error ledger inside [sources] and only ever
    appends to it: if every rkey with errors has a source before
    [load_all], the same holds after it; no source is dropped and the
    errors already recorded under an rkey remain the beginning of its
    list. *)
Theorem error_ledger_stays_within_sources (resources : list Resource)
  (st st' : Config) :
  errors_have_sources st → load_all resources st = Ok st' →
  errors_have_sources st' ∧
  (∀ k, is_Some (sources st !! k) → is_Some (sources st' !! k)) ∧
  (∀ k es, errors st !! k = Some es →
           ∃ es', errors st' !! k = Some (es ++ es')%list).
Proof.
  intros Hinv Hl. pose proof (load_all_grows _ _ _ Hl) as G.
  split; [by apply (grows_errors_have_sources _ _ G)|].
  split; [apply (grows_sources _ _ G)|apply (grows_errors _ _ G)].
Qed.

(** X3. Nothing in the pass counts an error: [fatal_errors] and
    [object_errors] come out of [load_all] as they went in.  Started with
    [fatal_errors] at zero, [load_all] therefore never raises its own
    "Unparseable configuration" exception: it raises exactly what the
    loop raises, and otherwise returns. *)
Theorem pass_never_counts_errors (resources : list Resource) (st : Config) :
  fatal_errors st = 0%nat →
  (∀ e, load_loop resources st = Raise e → load_all resources st = Raise e) ∧
  (∀ f, load_loop resources st = Ok f →
     ∃ st', load_all resources st = Ok st' ∧
       fatal_errors st' = 0%nat ∧ object_errors st' = object_errors st ∧
       config st' = config (flow_state f) ∧
       sources st' = sources (flow_state f) ∧
       errors st' = errors (flow_state f)).
Proof.
  intros Hz. unfold load_all. split; [by intros e ->|].
  intros f Hl. rewrite Hl. simpl.
  pose proof (load_loop_grows _ _ _ Hl) as G.
  pose proof (grows_fatal_errors _ _ G) as Hf.
  pose proof (grows_object_errors _ _ G) as Ho.
  destruct f as [st1|st1]; simpl in *.
  - rewrite Hf, Hz. simpl. case_bool_decide; eexists; (split; [reflexivity|]);
      simpl; repeat split; congruence.
  - eexists. split; [reflexivity|]. repeat split; congruence.
Qed.

(** X4. The schema cache only grows, and stays free of falsy documents:
    if no cached document is falsy before [load_all], none is after it,
    and every schema that was cached is still cached, unchanged. *)
Theorem schema_cache_only_grows (resources : list Resource)
  (st st' : Config) :
  cache_truthy st → load_all resources st = Ok st' →
  cache_truthy st' ∧
  ∀ k doc, schemas st !! k = Some doc → schemas st' !! k = Some doc.
Proof.
  intros Hinv Hl. pose proof (load_all_grows _ _ _ Hl) as G.
  split; [by apply (grows_cache_truthy _ _ G)|].
  intros k doc Hk. apply (grows_schemas _ _ G); [done|]. by eapply Hinv.
Qed.

(** X5. Validation is repeatable: validating the resource again, in the
    aggregate the first validation left, gives the same status and leaves
    the schema cache as the first validation left it. *)
Theorem validation_is_repeatable (r : Resource) (st st1 : Config)
  (rc : RichStatus) :
  validate_object r st = Ok (rc, st1) →
  ∃ st2, validate_object r st1 = Ok (rc, st2) ∧ schemas st2 = schemas st1.
Proof.
  unfold validate_object.
  destruct (apiVersion r) as [av|]; [|intros [= <- <-]; eauto].
  destruct (kind r) as [k|]; [|intros [= <- <-]; eauto].
  destruct (name r) as [n|]; [|intros [= <- <-]; eauto].
  destruct (PyStr.startswith "ambassador/" av); [|intros [= <- <-]; eauto].
  destruct (schema_version av) as [v|]; [|done].
  set (key := schema_key_of v k). set (path := schema_path_of v k).
  destruct (schema_truthy (schemas st !! key)) eqn:Hc.
  - destruct (schemas st !! key) as [doc|] eqn:Hk; [|done].
    simpl in Hc. simpl. rewrite Hc.
    destruct (jsonschema_validate r doc) eqn:Hj; intros [= <- <-];
      rewrite Hk; simpl; rewrite Hc; simpl; rewrite Hc, Hj; eauto.
  - unfold load_schema. destruct (read_schema path) as [|e|doc|e] eqn:Hd.
    + intros H.
      assert (rc = OK (Text "valid %s" [AStr k]) ∧
              st1 = log Debug "no schema at %s, skipping" [AStr path] st)
        as [-> ->].
      { simpl in H. destruct (schemas st !! key) as [doc|]; simpl in Hc, H;
          [rewrite Hc in H|]; by simplify_eq. }
      simpl. rewrite Hc. simpl.
      destruct (schemas st !! key) as [doc|]; simpl in Hc; [rewrite Hc|];
        (eexists; split; [reflexivity|reflexivity]).
    + intros H.
      assert (rc = OK (Text "valid %s" [AStr k]) ∧
              st1 = log Warning "corrupt schema at %s, skipping (%s)"
                      [AStr path; AStr e] st)
        as [-> ->].
      { simpl in H. destruct (schemas st !! key) as [doc|]; simpl in Hc, H;
          [rewrite Hc in H|]; by simplify_eq. }
      simpl. rewrite Hc. simpl.
      destruct (schemas st !! key) as [doc|]; simpl in Hc; [rewrite Hc|];
        (eexists; split; [reflexivity|reflexivity]).
    + simpl. destruct (truthy doc) eqn:Ht.
      * destruct (jsonschema_validate r doc) eqn:Hj; intros [= <- <-]; simpl;
          rewrite lookup_insert_eq; simpl; rewrite Ht; simpl; rewrite Ht, Hj;
          eauto.
      * intros [= <- <-]. rewrite Hc. simpl. rewrite ?Ht. eauto.
    + done.
Qed.

End PassInvariants.

Lemma errors_have_sources_empty (st : Config) :
  errors st = ∅ → errors_have_sources st.
Proof. intros He k [es Hk]. rewrite He, lookup_empty in Hk. done. Qed.

Lemma cache_truthy_empty (st : Config) : schemas st = ∅ → cache_truthy st.
Proof. intros He k doc Hk. rewrite He, lookup_empty in Hk. done. Qed.

Lemma overrides_have_source_empty (st : Config) :
  location_overrides st = ∅ → overrides_have_source st.
Proof. intros He k o Hk. rewrite He, lookup_empty in Hk. done. Qed.

Lemma filed_resources_are_never_replaced_witness :
  ∃ st',
    load_all (env := Demo.env) [Demo.auth_a; Demo.mapping_bad; Demo.pragma]
             (Demo.after [Demo.mapping_a]) = Ok st' ∧
    stored "mappings" "a" st' = Some Demo.mapping_a.
Proof.
  eexists. split; [vm_compute; reflexivity|].
  apply (proj2 (filed_resources_are_never_replaced (env := Demo.env)
                  [Demo.auth_a; Demo.mapping_bad; Demo.pragma]
                  (Demo.after [Demo.mapping_a]) "mappings" "a" Demo.mapping_a
                  ltac:(vm_compute; reflexivity))).
  vm_compute. reflexivity.
Defined.

Lemma error_ledger_stays_within_sources_witness :
  errors_have_sources (Demo.after [Demo.mapping_bad; Demo.nameless]) ∧
  is_Some (sources (Demo.after [Demo.mapping_bad; Demo.nameless])
             !! "--internal--").
Proof.
  destruct (error_ledger_stays_within_sources (env := Demo.env)
              [Demo.mapping_bad; Demo.nameless] Demo.fresh
              (Demo.after [Demo.mapping_bad; Demo.nameless]))
    as (Hinv & Hsrc & _).
  - apply errors_have_sources_empty. reflexivity.
  - vm_compute. reflexivity.
  - split; [exact Hinv|]. apply Hsrc. eexists. vm_compute. reflexivity.
Defined.

Lemma pass_never_counts_errors_witness :
  ∃ st',
    load_all (env := Demo.env) [Demo.mapping_bad; Demo.nameless] Demo.fresh
      = Ok st' ∧
    fatal_errors st' = 0%nat ∧ object_errors st' = 0%nat.
Proof.
  edestruct (proj2 (pass_never_counts_errors (env := Demo.env)
                      [Demo.mapping_bad; Demo.nameless] Demo.fresh eq_refl))
    as (st' & H1 & H2 & H3 & _).
  - vm_compute. reflexivity.
  - exists st'. split; [exact H1|]. split; [exact H2|exact H3].
Defined.

Lemma schema_cache_only_grows_witness :
  cache_truthy (Demo.after [Demo.mapping_a; Demo.empty_a; Demo.broken_a]).
Proof.
  apply (schema_cache_only_grows (env := Demo.env)
           [Demo.mapping_a; Demo.empty_a; Demo.broken_a] Demo.fresh
           (Demo.after [Demo.mapping_a; Demo.empty_a; Demo.broken_a])).
  - apply cache_truthy_empty. reflexivity.
  - vm_compute. reflexivity.
Defined.

Lemma validation_is_repeatable_witness :
  ∃ st2,
    validate_object (env := Demo.env) Demo.mapping_bad
      (set_schemas (<["v0-Mapping" := Demo.mapping_schema]> (schemas Demo.fresh))
                   Demo.fresh) =
      Ok (fromError
            (Text "not a valid %s: %s"
               [AStr "Mapping"; AStr "'prefix' is a required property"]),
          st2) ∧
    schemas st2 = <["v0-Mapping" := Demo.mapping_schema]> (schemas Demo.fresh).
Proof.
  apply (validation_is_repeatable (env := Demo.env) Demo.mapping_bad Demo.fresh).
  vm_compute. reflexivity.
Defined.

(** ** Pragmas and overrides *)

Section PragmaEdges.

Context {env : Env}.

(** X6. A Pragma without a [source] key has no effect: [process] answers
    with the success status of the handler, and the aggregate differs
    from the one it was given by the current resource and by one debug
    line listing the keys. *)
Theorem pragma_without_source_only_logs (r : Resource) (st : Config) :
  kind r = Some "Pragma" → str_truthy (apiVersion r) = true →
  source r = None →
  process r st =
    Ok (OK (Text "handled pragma object" []),
        log Debug "PRAGMA: %s" [AStrs (pragma_keylist r)]
          (set_current_resource (Some r) st)).
Proof.
  intros Hk Ha Hs. unfold process. rewrite Ha, Hk. simpl.
  unfold handle_pragma. rewrite pragma_fold_idle; [done|].
  by apply source_not_in_keylist.
Qed.

(** X7. Every record of [location_overrides] a pass leaves carries its
    ['source'], if those it started with did: [load_all] then never falls
    back on the rkey for a location.  A resource either has no override
    record and keeps its location, or takes the recorded source as its
    location. *)
Theorem override_records_carry_a_source (resources : list Resource)
  (st : Config) (f : flow) :
  overrides_have_source st → load_loop resources st = Ok f →
  overrides_have_source (flow_state f) ∧
  ∀ r,
    (location_overrides (flow_state f) !! rkey r = None ∧
     apply_override r (flow_state f) = r) ∨
    ∃ s, override_source (rkey r) (flow_state f) = Some s ∧
         apply_override r (flow_state f) = set_location s r.
Proof.
  intros Hinv Hl.
  pose proof (grows_overrides_have_source _ _ (load_loop_grows _ _ _ Hl) Hinv)
    as Hinv'.
  split; [done|]. intros r. unfold apply_override, override_source.
  destruct (location_overrides (flow_state f) !! rkey r) as [o|] eqn:Ho.
  - right. destruct (Hinv' _ _ Ho) as [s Hsrc]. exists s. simpl.
    by rewrite Hsrc.
  - by left.
Qed.

End PragmaEdges.

Lemma pragma_without_source_only_logs_witness :
  process (env := Demo.env) Tour.pragma_idle Demo.fresh =
    Ok (OK (Text "handled pragma object" []),
        log Debug "PRAGMA: %s" [AStrs ["autogenerated"]]
          (set_current_resource (Some Tour.pragma_idle) Demo.fresh)).
Proof.
  apply (pragma_without_source_only_logs (env := Demo.env)
           Tour.pragma_idle Demo.fresh); reflexivity.
Defined.

Lemma override_records_carry_a_source_witness :
  ∃ f,
    load_loop (env := Demo.env) [Demo.pragma; Demo.mapping_a] Demo.fresh = Ok f ∧
    overrides_have_source (flow_state f) ∧
    ∃ s, override_source "a.yaml" (flow_state f) = Some s ∧
         apply_override Demo.mapping_a (flow_state f)
         = set_location s Demo.mapping_a.
Proof.
  eexists. split; [vm_compute; reflexivity|].
  edestruct (override_records_carry_a_source (env := Demo.env)
               [Demo.pragma; Demo.mapping_a] Demo.fresh) as [Hinv Hr].
  - apply overrides_have_source_empty. reflexivity.
  - vm_compute. reflexivity.
  - split; [exact Hinv|].
    destruct (Hr Demo.mapping_a) as [[Hnone _]|Hsome].
    + vm_compute in Hnone. discriminate.
    + exact Hsome.
Defined.

(** ** Who processes what *)

Section Admission.

Context {env : Env}.

Lemma id_in_spec (items : list json) :
  id_in items = true ↔ JStr Config_ambassador_id ∈ items.
Proof.
  unfold id_in. induction items as [|v items IH]; simpl.
  - split; [discriminate|]. intros H. by apply elem_of_nil in H.
  - rewrite orb_true_iff, IH, elem_of_cons. split.
    + intros [Hv|Hin]; [left|by right].
      destruct v; try discriminate. by apply String.eqb_eq in Hv as ->.
    + intros [<-|Hin]; [left|by right]. apply String.eqb_refl.
Qed.

(** X8. The ownership filter lets a resource through exactly when its
    [ambassador_id] admits the configured identity: no [ambassador_id]
    admits the identity "default" only; a string admits itself, and the
    empty string admits everyone; a list admits its string members, and
    the empty list admits everyone; any other value admits everyone when
    it is falsy and nobody when it is truthy. *)
Theorem ownership_filter_decides (r : Resource) :
  foreign_ids r = None ↔ admits Config_ambassador_id (ambassador_id r).
Proof.
  unfold foreign_ids, admits.
  assert (Hone : ∀ v, id_in [v] = true ↔ v = JStr Config_ambassador_id).
  { intros v. rewrite id_in_spec, list_elem_of_singleton. split; congruence. }
  assert (Hif : ∀ l : list json,
    (if negb (id_in l) then Some l else None) = None ↔ id_in l = true).
  { intros l. destruct (id_in l); simpl; split; congruence. }
  destruct (ambassador_id r) as [[|b|z|s|items|members]|];
    cbn [from_option id truthy]; cbv beta iota zeta.
  - done.
  - destruct b; cbv beta iota zeta; [|done].
    rewrite Hif, Hone. split; congruence.
  - destruct (z =? 0)%Z; cbn [negb]; cbv beta iota zeta; [done|].
    rewrite Hif, Hone. split; congruence.
  - destruct (String.eqb_spec s "") as [->|Hne]; cbn [negb];
      cbv beta iota zeta.
    + split; auto.
    + rewrite Hif, Hone. split; [intros [= ->]; by right|].
      by intros [? | ->].
  - destruct items as [|v items]; cbv beta iota zeta; [split; auto|].
    rewrite Hif, id_in_spec. split; [by right|]. by intros [?|?].
  - destruct members; cbv beta iota zeta; [done|].
    rewrite Hif, Hone. split; congruence.
  - change (negb (String.eqb "default" "")) with true. cbv beta iota zeta.
    rewrite Hif, Hone. split; congruence.
Qed.

End Admission.

(** ** Dispatch *)

Section Dispatch.

Context {env : Env}.

Lemma invoke_fixed_bucket (r : Resource) (k b : string) (st : Config) :
  fixed_bucket (PyStr.lower k) = Some b →
  invoke_handler r k st =
    safe_store b r true
      (log Debug "%s: handling %s..." [ARepr (resource_str r); AStr k] st).
Proof.
  unfold fixed_bucket, invoke_handler, getattr_handler.
  change ("handle_" ++ PyStr.lower k)%string with
    (String "h" (String "a" (String "n" (String "d" (String "l" (String "e"
      (String "_" (PyStr.lower k)))))))).
  generalize (PyStr.lower k). intros x.
  change (String.eqb (String "h" (String "a" (String "n" (String "d"
            (String "l" (String "e" (String "_" x))))))) "handle_pragma")
    with (String.eqb x "pragma").
  change (String.eqb (String "h" (String "a" (String "n" (String "d"
            (String "l" (String "e" (String "_" x))))))) "handle_module")
    with (String.eqb x "module").
  change (String.eqb (String "h" (String "a" (String "n" (String "d"
            (String "l" (String "e" (String "_" x)))))))
            "handle_ratelimitservice")
    with (String.eqb x "ratelimitservice").
  change (String.eqb (String "h" (String "a" (String "n" (String "d"
            (String "l" (String "e" (String "_" x)))))))
            "handle_tracingservice")
    with (String.eqb x "tracingservice").
  change (String.eqb (String "h" (String "a" (String "n" (String "d"
            (String "l" (String "e" (String "_" x)))))))
            "handle_authservice")
    with (String.eqb x "authservice").
  change (String.eqb (String "h" (String "a" (String "n" (String "d"
            (String "l" (String "e" (String "_" x))))))) "handle_mapping")
    with (String.eqb x "mapping").
  destruct (String.eqb_spec x "ratelimitservice") as [->|_]; [by intros [= <-]|].
  destruct (String.eqb_spec x "tracingservice") as [->|_]; [by intros [= <-]|].
  destruct (String.eqb_spec x "authservice") as [->|_]; [by intros [= <-]|].
  destruct (String.eqb_spec x "mapping") as [->|_]; [by intros [= <-]|].
  done.
Qed.

(** X9. The handler of a kind is found whatever the case the kind is
    written in, and the four handlers that file a resource as it is use
    one fixed bucket each.  So two resources of one name whose kinds
    lowercase to the same of these four collide, however their kinds are
    written: once the first is filed, the handler of the second raises
    the duplicate-name exception. *)
Theorem kinds_differing_in_case_share_a_bucket (r1 r2 : Resource)
  (k1 k2 b n : string) (st st1 : Config) :
  fixed_bucket (PyStr.lower k1) = Some b →
  PyStr.lower k2 = PyStr.lower k1 →
  name r1 = Some n → name r2 = Some n →
  invoke_handler r1 k1 st = Ok st1 →
  stored b n st1 = Some r1 ∧
  ∀ st2, grows st1 st2 →
    invoke_handler r2 k2 st2 =
      Raise (Exception
        (Text "%s defines %s %s, which is already present"
           [ARepr (resource_str r2); AStr (default "None" (kind r2)); AStr n])).
Proof.
  intros Hb Hk Hn1 Hn2 H1.
  rewrite (invoke_fixed_bucket r1 k1 b st Hb) in H1.
  assert (Hs : stored b n st1 = Some r1).
  { destruct (stored b n st) as [r0|] eqn:Hf.
    - by rewrite (safe_store_duplicate b n r1 r0 true (log Debug _ _ st) Hn1 Hf)
        in H1.
    - destruct (safe_store_fresh b n r1 true (log Debug "%s: handling %s..."
                  [ARepr (resource_str r1); AStr k1] st) Hn1 Hf)
        as (st1' & E & Hc & _).
      rewrite E in H1. injection H1 as <-.
      rewrite (stored_insert b b n n r1 _ st1' Hc). by rewrite decide_True. }
  split; [done|]. intros st2 G.
  rewrite (invoke_fixed_bucket r2 k2 b st2) by (by rewrite Hk).
  eapply safe_store_duplicate; [done|].
  rewrite stored_log. by apply (grows_stored _ _ G).
Qed.

(** X10. The kind [Pragma] is recognised as written; in any other case
    ([pragma], [PRAGMA], ...) the document is an ordinary resource whose
    handler is [handle_pragma]: it needs a name, is filed in [sources]
    and validated, its [source] is recorded as an override, and it enters
    no bucket. *)
Theorem pragma_in_another_case_is_validated (r : Resource) (k : string)
  (st st1 : Config) (rc : RichStatus) :
  reaches_validation r → kind r = Some k → PyStr.lower k = "pragma" →
  validate_object r (at_validation r st) = Ok (rc, st1) → rs_ok rc = true →
  ∃ st',
    process r st =
      Ok (OK (Text "%s object processed successfully" [AStr k]), st') ∧
    sources st' !! rkey r = Some r ∧
    config st' = config st ∧
    ∀ s, source r = Some s → override_source (rkey r) st' = Some s.
Proof.
  intros Hv Hk Hl Hval Hrc.
  set (st1l := log Debug "%s: handling %s..."
                 [ARepr (resource_str r); AStr k] st1).
  assert (Hh : invoke_handler r k st1 = Ok (handle_pragma r st1l).2).
  { unfold invoke_handler, getattr_handler. by rewrite Hl. }
  exists (set_current_resource None (handle_pragma r st1l).2).
  split.
  { rewrite (process_validated r k st Hv Hk), Hval. simpl.
    rewrite Hrc. simpl. by rewrite Hh. }
  destruct (validate_object_frame _ _ _ _ Hval) as ((Hc1 & Hs1 & _) & _).
  destruct (handle_pragma_frame r st1l) as (Hc2 & Hs2 & _).
  simpl in *. split; [|split].
  - rewrite Hs2, Hs1. apply lookup_insert_eq.
  - by rewrite Hc2, Hc1.
  - intros s Hs. by apply (handle_pragma_source r st1l s).
Qed.

End Dispatch.

Lemma kinds_differing_in_case_share_a_bucket_witness :
  ∃ st1,
    invoke_handler (env := Demo.env) Demo.mapping_a "Mapping" Demo.fresh
      = Ok st1 ∧
    stored "mappings" "a" st1 = Some Demo.mapping_a ∧
    invoke_handler (env := Demo.env) Tour.mapping_upper "MAPPING" st1 =
      Raise (Exception
        (Text "%s defines %s %s, which is already present"
           [ARepr "<A.yaml>"; AStr "MAPPING"; AStr "a"])).
Proof.
  eexists. split; [vm_compute; reflexivity|].
  edestruct (kinds_differing_in_case_share_a_bucket (env := Demo.env)
               Demo.mapping_a Tour.mapping_upper "Mapping" "MAPPING"
               "mappings" "a" Demo.fresh)
    as [Hs Hdup];
    [reflexivity | reflexivity | reflexivity | reflexivity | | ].
  - vm_compute. reflexivity.
  - split; [exact Hs|]. apply Hdup. apply grows_refl.
Defined.

Lemma pragma_in_another_case_is_validated_witness :
  ∃ st',
    process (env := Demo.env) Tour.pragma_lower Demo.fresh =
      Ok (OK (Text "%s object processed successfully" [AStr "pragma"]), st') ∧
    sources st' !! "p.yaml" = Some Tour.pragma_lower ∧
    config st' = config Demo.fresh ∧
    ∀ s, source Tour.pragma_lower = Some s →
         override_source "p.yaml" st' = Some s.
Proof.
  eapply (pragma_in_another_case_is_validated (env := Demo.env)
            Tour.pragma_lower "pragma" Demo.fresh).
  - repeat split; [discriminate|eexists; reflexivity].
  - reflexivity.
  - reflexivity.
  - vm_compute. reflexivity.
  - reflexivity.
Defined.

(** ** What makes a pass abort *)

Section Aborts.

Context {env : Env}.

(** X11. [validate_object] raises for two reasons only: with nothing
    usable in the cache, reading the schema file raises something other
    than [OSError] and [JSONDecodeError], which the [try] block does not
    catch; or the jsonschema library rejects the schema itself.  The
    prefix test guarantees the piece that [split('/')[1]] takes, and
    absent or corrupt schema files are caught. *)
Theorem validate_object_raises_only_schema_errors (r : Resource)
  (st : Config) (e : exn) :
  validate_object r st = Raise e →
  (∃ av k v, apiVersion r = Some av ∧ kind r = Some k ∧
             schema_version av = Some v ∧
             schema_truthy (schemas st !! schema_key_of v k) = false ∧
             read_schema (schema_path_of v k) = Unreadable e) ∨
  (∃ m doc, e = SchemaError m ∧ truthy doc = true ∧
            jsonschema_validate r doc = BadSchema m).
Proof.
  unfold validate_object.
  destruct (apiVersion r) as [av|]; [|done].
  destruct (kind r) as [k|]; [|done].
  destruct (name r) as [n|]; [|done].
  destruct (PyStr.startswith "ambassador/" av) eqn:Hp; [|done].
  destruct (schema_version_prefix av Hp) as (v & Hv). rewrite Hv.
  destruct (schema_truthy (schemas st !! schema_key_of v k)) eqn:Hc; simpl.
  - destruct (schemas st !! schema_key_of v k) as [doc|]; [|done].
    destruct (truthy doc) eqn:Ht; [|done].
    destruct (jsonschema_validate r doc) eqn:Hj; try done.
    intros [= <-]. right. eauto.
  - unfold load_schema.
    destruct (read_schema (schema_path_of v k)) as [|c|doc|e'] eqn:Hd; simpl.
    + destruct (schemas st !! schema_key_of v k) as [doc|]; [|done].
      simpl in Hc. by rewrite Hc.
    + destruct (schemas st !! schema_key_of v k) as [doc|]; [|done].
      simpl in Hc. by rewrite Hc.
    + destruct (truthy doc) eqn:Ht; [|done].
      destruct (jsonschema_validate r doc) eqn:Hj; try done.
      intros [= <-]. right. eauto.
    + intros [= <-]. left. exists av, k, v. eauto.
Qed.

(** X12. [process] raises only past its own tests, in validation or in
    the handler: a resource with a missing field, or a Pragma, always
    gets a status back. *)
Theorem process_raises_only_past_the_checks (r : Resource) (st : Config)
  (e : exn) :
  process r st = Raise e →
  reaches_validation r ∧
  ∃ k, kind r = Some k ∧
    (validate_object r (at_validation r st) = Raise e ∨
     ∃ rc st1, validate_object r (at_validation r st) = Ok (rc, st1) ∧
               rs_ok rc = true ∧ invoke_handler r k st1 = Raise e).
Proof.
  intros H.
  assert (Hv : reaches_validation r).
  { unfold process in H. unfold reaches_validation.
    destruct (str_truthy (apiVersion r)); [|done].
    destruct (str_truthy (kind r)); [|done]. simpl in H.
    case_bool_decide; [done|].
    destruct (name r); [|done]. eauto. }
  split; [done|].
  pose proof Hv as (_ & Hk & _). apply str_truthy_Some in Hk as (k & Hk & _).
  exists k. split; [done|].
  rewrite (process_validated r k st Hv Hk) in H.
  destruct (validate_object r (at_validation r st)) as [[rc st1]|e'];
    simpl in H; [|left; congruence].
  right. exists rc, st1. destruct (rs_ok rc); simpl in H; [|done].
  destruct (invoke_handler r k st1); simpl in H; [done|].
  split; [done|]. split; [done|congruence].
Qed.

(** X13. Apart from the Module handler, whose construction of the module
    resource is outside this file, a handler raises for one reason only:
    the name of the resource is already in the bucket the handler files
    it in.  The exception is the duplicate-name one. *)
Theorem handlers_raise_only_on_duplicates (r : Resource) (k n : string)
  (st : Config) (e : exn) :
  kind r = Some k → name r = Some n → PyStr.lower k ≠ "module" →
  invoke_handler r k st = Raise e →
  e = Exception
        (Text "%s defines %s %s, which is already present"
           [ARepr (resource_str r); AStr k; AStr n]) ∧
  ∃ b r0, stored b n st = Some r0 ∧
          b = default k (fixed_bucket (PyStr.lower k)).
Proof.
  intros Hk Hn Hm. rewrite invoke_handler_table. cbv zeta.
  destruct (String.eqb (PyStr.lower k) "pragma"); [done|].
  destruct (String.eqb_spec (PyStr.lower k) "module") as [?|_]; [done|].
  assert (Hstore : ∀ b al l f a,
    safe_store b r al (log l f a st) = Raise e →
    e = Exception
          (Text "%s defines %s %s, which is already present"
             [ARepr (resource_str r); AStr k; AStr n]) ∧
    ∃ r0, stored b n st = Some r0).
  { intros b al l f a. unfold safe_store, stored. rewrite Hn, Hk. simpl.
    destruct (config st !! b) as [bucket|]; simpl.
    - destruct (bucket !! n) as [r0|]; [|by destruct al].
      intros [= <-]. eauto.
    - rewrite lookup_empty. by destruct al. }
  destruct (fixed_bucket (PyStr.lower k)) as [b|]; simpl.
  - intros H. destruct (Hstore _ _ _ _ _ H) as (-> & r0 & Hs). eauto.
  - unfold save_object. rewrite Hk.
    intros H. destruct (Hstore _ _ _ _ _ H) as (-> & r0 & Hs). eauto.
Qed.

End Aborts.

Lemma handlers_raise_only_on_duplicates_witness :
  ∃ r0, stored "Widget" "a" (Demo.after [Demo.widget_a]) = Some r0.
Proof.
  edestruct (handlers_raise_only_on_duplicates (env := Demo.env)
               Demo.widget_a_again "Widget" "a" (Demo.after [Demo.widget_a]))
    as (_ & b & r0 & Hs & Hb);
    [reflexivity | reflexivity | discriminate | vm_compute; reflexivity |].
  exists r0. rewrite <- Hs. f_equal. exact (eq_sym Hb).
Defined.

Lemma process_raises_only_past_the_checks_witness :
  reaches_validation Demo.mapping_a.
Proof.
  edestruct (process_raises_only_past_the_checks (env := Demo.env)
               Demo.mapping_a (Demo.after [Demo.mapping_a])) as [Hv _].
  - vm_compute. reflexivity.
  - exact Hv.
Defined.

Lemma validate_object_raises_only_schema_errors_witness :
  (∃ av k v, apiVersion Demo.mapping_a = Some av ∧
             kind Demo.mapping_a = Some k ∧ schema_version av = Some v ∧
             schema_truthy (schemas Demo.fresh !! schema_key_of v k) = false ∧
             @read_schema Tour.rejecting_env
               (schema_path_of (env := Tour.rejecting_env) v k)
             = Unreadable
                 (SchemaError "5 is not valid under any of the given schemas")) ∨
  (∃ m doc,
     SchemaError "5 is not valid under any of the given schemas" = SchemaError m ∧
     truthy doc = true ∧
     jsonschema_validate (Env := Tour.rejecting_env) Demo.mapping_a doc
     = BadSchema m).
Proof.
  apply (validate_object_raises_only_schema_errors (env := Tour.rejecting_env)
           Demo.mapping_a Demo.fresh).
  vm_compute. reflexivity.
Defined.

(** ** Composition *)

Section Composition.

Context {env : Env}.

(** X14. The loop of [load_all] over a sequence in two parts is the loop
    over the first part followed, from the aggregate it leaves, by the
    loop over the second; if the first part returns early or raises, the
    second part is not looked at. *)
Theorem load_loop_app (first second : list Resource) (st : Config) :
  load_loop (first ++ second) st =
    match load_loop first st with
    | Ok (Next st1) => load_loop second st1
    | Ok (Return st1) => Ok (Return st1)
    | Raise e => Raise e
    end.
Proof.
  revert st. induction first as [|r first IH]; intros st; simpl.
  - reflexivity.
  - destruct (load_step r st) as [[st1|st1]|e]; simpl; [apply IH|done..].
Qed.

(** X15. [process] leaves [current_resource] empty only after a handler
    has run: when a field is missing, when validation fails and when a
    Pragma has been handled, the resource stays the current one. *)
Theorem current_resource_after_process (r : Resource) (st st' : Config)
  (rc : RichStatus) :
  process r st = Ok (rc, st') →
  current_resource st' =
    if rs_ok rc && negb (bool_decide (kind r = Some "Pragma")) then None
    else Some r.
Proof.
  unfold process.
  destruct (str_truthy (apiVersion r)); simpl; [|by intros [= <- <-]].
  destruct (str_truthy (kind r)); simpl; [|by intros [= <- <-]].
  case_bool_decide as Hp.
  { pose proof (handle_pragma_frame r (set_current_resource (Some r) st))
      as (_&_&_&_&Hcur&_).
    destruct (handle_pragma r (set_current_resource (Some r) st)) as [rc0 st0].
    intros [= <- <-]. simpl in Hcur. rewrite Hcur, andb_false_r. done. }
  destruct (name r) as [n|]; [|by intros [= <- <-]].
  destruct (validate_object r
              (save_source r (set_current_resource (Some r) st)))
    as [[rc1 st1]|] eqn:Hv; [|done].
  simpl. apply validate_object_frame in Hv as (_ & _ & Hcur).
  destruct (rs_ok rc1) eqn:Hrc; simpl.
  - destruct (invoke_handler r (default "" (kind r)) st1); [|done].
    simpl. by intros [= <- <-].
  - intros [= <- <-]. by rewrite Hrc, Hcur.
Qed.

End Composition.

Lemma current_resource_after_process_witness :
  current_resource (set_current_resource (Some Demo.nameless) Demo.fresh)
  = Some Demo.nameless.
Proof.
  apply (current_resource_after_process (env := Demo.env) Demo.nameless
           Demo.fresh _ (fromError (Text "need name" []))).
  reflexivity.
Defined.

(** ** Modules *)

Section Modules.

Context {env : Env}.

(** [get_module] reads the bucket [modules]; the test for an empty bucket
    changes nothing. *)
Lemma get_module_stored (n : string) (st : Config) :
  get_module n st = stored "modules" n st.
Proof.
  unfold get_module, get_config, stored.
  destruct (config st !! "modules") as [modules|]; simpl; [|done].
  case_bool_decide as He; [done|]. by rewrite He, lookup_empty.
Qed.

(** X16. A Module gets in under the name of the resource
    [Resource.from_resource] makes of it, and the lookups then find it:
    before [handle_module], [get_module] has nothing under that name and
    [module_lookup] answers with its default; after it, [get_module]
    returns the module resource and [module_lookup] reads its keys,
    answering with the default for a key it does not have.  Other modules
    are what they were. *)
Theorem handled_module_is_found (r : Resource) (st st' : Config) :
  handle_module r st = Ok st' →
  ∃ m n, module_from_resource r = Ok m ∧ name m = Some n ∧
    get_module n st = None ∧ get_module n st' = Some m ∧
    (∀ n', n' ≠ n → get_module n' st' = get_module n' st) ∧
    ∀ (resource_get : Resource → string → option json) key d,
      module_lookup resource_get n key d st = d ∧
      module_lookup resource_get n key d st'
      = default d (resource_get m key).
Proof.
  unfold handle_module.
  destruct (module_from_resource r) as [m|]; [|done]. simpl. intros H.
  destruct (name m) as [n|] eqn:Hn; [|unfold safe_store in H; by rewrite Hn in H].
  exists m, n. split; [done|]. split; [done|].
  destruct (stored "modules" n st) as [r0|] eqn:Hf.
  { by rewrite (safe_store_duplicate "modules" n m r0 true st Hn Hf) in H. }
  destruct (safe_store_fresh "modules" n m true st Hn Hf) as (st1 & E & Hc & _).
  assert (st1 = st') as -> by congruence.
  assert (Hafter : get_module n st' = Some m).
  { rewrite get_module_stored, (stored_insert _ _ _ _ _ _ _ Hc).
    by rewrite decide_True. }
  split; [by rewrite get_module_stored|]. split; [done|]. split.
  - intros n' Hne. rewrite !get_module_stored, (stored_insert _ _ _ _ _ _ _ Hc).
    rewrite decide_False; [done|]. intros [_ ?]. congruence.
  - intros resource_get key d. unfold module_lookup.
    rewrite Hafter, get_module_stored, Hf. done.
Qed.

End Modules.

Lemma handled_module_is_found_witness :
  ∃ st' m,
    handle_module (env := Demo.env) Tour.module_ambassador Demo.fresh = Ok st' ∧
    get_module "ambassador" st' = Some m ∧
    module_lookup Tour.body_get "ambassador" "use_remote_address"
      (JBool false) Demo.fresh = JBool false ∧
    module_lookup Tour.body_get "ambassador" "use_remote_address"
      (JBool false) st' = default (JBool false)
                            (Tour.body_get m "use_remote_address").
Proof.
  eexists.
  edestruct (handled_module_is_found (env := Demo.env) Tour.module_ambassador
               Demo.fresh) as (m & n & Hm & Hn & _ & Hget & _ & Hlook).
  - vm_compute. reflexivity.
  - injection Hm as <-. injection Hn as <-.
    eexists. split; [reflexivity|]. split; [exact Hget|].
    exact (Hlook Tour.body_get "use_remote_address" (JBool false)).
Defined.

(** ** A pass from the reset aggregate *)

Section FromReset.

Context {env : Env}.

(** X17. Whatever the aggregate held before [_reset] and whatever the
    documents, a pass from the reset aggregate that ends normally leaves
    a consistent aggregate: the two bootstrap resources still have their
    entries in [sources], every rkey with errors has a source, the schema
    cache holds no falsy document, every override record has its source,
    and the two error counters are zero. *)
Theorem pass_from_reset_is_consistent (internal diagnostics : Resource)
  (before st' : Config) (resources : list Resource) :
  load_all resources (_reset internal diagnostics before) = Ok st' →
  is_Some (sources st' !! rkey internal) ∧
  is_Some (sources st' !! rkey diagnostics) ∧
  errors_have_sources st' ∧ cache_truthy st' ∧ overrides_have_source st' ∧
  fatal_errors st' = 0%nat ∧ object_errors st' = 0%nat.
Proof.
  intros Hl. pose proof (load_all_grows _ _ _ Hl) as G.
  set (st0 := _reset internal diagnostics before) in *.
  split; [|split].
  - apply (grows_sources _ _ G). unfold st0, _reset. simpl.
    destruct (decide (rkey diagnostics = rkey internal)) as [->|Hne].
    + rewrite lookup_insert_eq. eauto.
    + rewrite lookup_insert_ne, lookup_insert_eq by done. eauto.
  - apply (grows_sources _ _ G). unfold st0, _reset. simpl.
    rewrite lookup_insert_eq. eauto.
  - split; [apply (grows_errors_have_sources _ _ G);
            by apply errors_have_sources_empty|].
    split; [apply (grows_cache_truthy _ _ G); by apply cache_truthy_empty|].
    split; [apply (grows_overrides_have_source _ _ G);
            by apply overrides_have_source_empty|].
    split; [by rewrite (grows_fatal_errors _ _ G)
           |by rewrite (grows_object_errors _ _ G)].
Qed.

End FromReset.

Lemma pass_from_reset_is_consistent_witness :
  is_Some (sources (Demo.after [Demo.pragma; Demo.mapping_bad; Demo.empty_a])
             !! "--internal--") ∧
  errors_have_sources (Demo.after [Demo.pragma; Demo.mapping_bad; Demo.empty_a]).
Proof.
  edestruct (pass_from_reset_is_consistent (env := Demo.env)
               Demo.internal Demo.diagnostics
               (mkConfig None ∅ ∅ ∅ ∅ ∅ ∅ ∅ 0 0 [])
               (Demo.after [Demo.pragma; Demo.mapping_bad; Demo.empty_a])
               [Demo.pragma; Demo.mapping_bad; Demo.empty_a])
    as (H1 & _ & H3 & _).
  - vm_compute. reflexivity.
  - split; [exact H1|exact H3].
Defined.

(** X20. For an apiVersion made of the namespace prefix and a version
    without a slash, the version [validate_object] looks schemas up under
    is all that follows the prefix. *)
Theorem plain_version_is_the_remainder (apiVersion rest : string) :
  apiVersion = ("ambassador/" ++ rest)%string →
  (∀ i c, String.get i rest = Some c → c ≠ "/"%char) →
  PyStr.startswith "ambassador/" apiVersion = true ∧
  schema_version apiVersion = Some rest.
Proof.
  intros -> Hno. split; [|by apply schema_version_single_segment].
  unfold PyStr.startswith.
  change ("ambassador/" ++ rest)%string with
    (String "a" (String "m" (String "b" (String "a" (String "s" (String "s"
      (String "a" (String "d" (String "o" (String "r" (String "/" rest))))))))))).
  simpl. repeat (destruct (ascii_dec _ _); [|done]). by destruct rest.
Qed.

Lemma plain_version_is_the_remainder_witness :
  PyStr.startswith "ambassador/" "ambassador/v1" = true ∧
  schema_version "ambassador/v1" = Some "v1".
Proof.
  apply (plain_version_is_the_remainder "ambassador/v1" "v1"); [reflexivity|].
  intros i c H. destruct i as [|[|i]]; simpl in H; [| |discriminate];
    injection H as <-; discriminate.
Defined.

(** ** Where a pass writes *)

Section Footprint.

Context {env : Env}.

Lemma process_footprint (r : Resource) (st st' : Config) (rc : RichStatus) :
  process r st = Ok (rc, st') →
  errors st' = errors st ∧
  ∀ k, k ≠ rkey r → sources st' !! k = sources st !! k.
Proof.
  intros H. split; [by apply process_frame in H as (? & _)|].
  revert H. unfold process.
  destruct (str_truthy (apiVersion r)); simpl; [|by intros [= <- <-]].
  destruct (str_truthy (kind r)); simpl; [|by intros [= <- <-]].
  case_bool_decide.
  { pose proof (handle_pragma_frame r (set_current_resource (Some r) st))
      as (_ & Hs & _).
    destruct (handle_pragma r (set_current_resource (Some r) st)) as [rc0 st0].
    intros [= <- <-] k _. simpl in Hs. by rewrite Hs. }
  destruct (name r) as [n|]; [|by intros [= <- <-]].
  destruct (validate_object r
              (save_source r (set_current_resource (Some r) st)))
    as [[rc1 st1]|] eqn:Hv; [|done].
  simpl. apply validate_object_frame in Hv as ((_ & Hs1 & _) & _).
  simpl in Hs1.
  destruct (rs_ok rc1); simpl.
  - destruct (invoke_handler r (default "" (kind r)) st1) as [st2|] eqn:Hh;
      [|done].
    apply invoke_handler_frame in Hh as (Hs2 & _).
    simpl. intros [= <- <-] k Hk. simpl. rewrite Hs2, Hs1.
    by rewrite lookup_insert_ne.
  - intros [= <- <-] k Hk. rewrite Hs1. by rewrite lookup_insert_ne.
Qed.

Lemma process_and_post_footprint (r : Resource) (st st' : Config) :
  process_and_post r st = Ok st' →
  ∀ k, k ≠ rkey r →
    sources st' !! k = sources st !! k ∧ errors st' !! k = errors st !! k.
Proof.
  unfold process_and_post.
  destruct (process r st) as [[rc st1]|] eqn:Hp; [|done]. simpl.
  apply process_footprint in Hp as (He & Hs).
  destruct (rs_ok rc); simpl.
  - intros [= <-] k Hk. by rewrite He, Hs.
  - destruct (post_error_given rc r st1) as (st2 & E & Hs2 & He2 & _).
    rewrite E. intros [= <-] k Hk.
    rewrite Hs2, He2, !lookup_insert_ne by done. by rewrite He, Hs.
Qed.

Lemma load_loop_footprint (resources : list Resource) (st : Config) (f : flow)
  (k : string) :
  (∀ r, r ∈ resources → rkey r ≠ k) →
  load_loop resources st = Ok f →
  sources (flow_state f) !! k = sources st !! k ∧
  errors (flow_state f) !! k = errors st !! k.
Proof.
  revert st. induction resources as [|r rest IH]; intros st Hrs; simpl.
  - by intros [= <-].
  - assert (Hk : k ≠ rkey r) by (intros ->; eapply Hrs; [left|done]).
    unfold load_step, ingest.
    destruct (foreign_ids (apply_override r st)); simpl; [by intros [= <-]|].
    match goal with
    | |- context [process_and_post ?r' ?s] =>
        destruct (process_and_post r' s) as [s'|] eqn:Hp; [|done]
    end.
    simpl. apply process_and_post_footprint with (k := k) in Hp;
      [|by rewrite rkey_apply_override].
    simpl in Hp. destruct Hp as [Hs He]. intros H.
    apply IH in H; [|intros r' Hr'; apply Hrs; by right].
    destruct H as [Hs' He']. by rewrite Hs', He', Hs, He.
Qed.

(** X18. A pass writes to [sources], to the error ledger and to
    [location_overrides] under the rkeys of its documents only: for any
    other rkey the three entries come out of [load_all] as they went
    in. *)
Theorem pass_writes_only_under_its_rkeys (resources : list Resource)
  (st st' : Config) (k : string) :
  (∀ r, r ∈ resources → rkey r ≠ k) →
  load_all resources st = Ok st' →
  sources st' !! k = sources st !! k ∧
  errors st' !! k = errors st !! k ∧
  location_overrides st' !! k = location_overrides st !! k.
Proof.
  intros Hrs. unfold load_all.
  destruct (load_loop resources st) as [f|] eqn:Hl; [|done]. simpl.
  destruct (load_loop_footprint _ _ _ k Hrs Hl) as [Hs He].
  pose proof (load_loop_overrides _ _ _ k Hrs Hl) as Ho.
  destruct f as [st1|st1]; simpl in *.
  - destruct (negb (fatal_errors st1 =? 0)%nat); [done|].
    case_bool_decide; by intros [= <-].
  - by intros [= <-].
Qed.

(** X19. A valid resource whose kind lowercases to [mapping],
    [authservice], [tracingservice] or [ratelimitservice], and whose name
    is not yet in the bucket of that handler, is filed as it is: [process]
    returns the success status, the resource is under its name in the
    fixed bucket and under its rkey in [sources], the error ledger is
    what it was and no resource is current any more. *)
Theorem fixed_handler_files_the_resource (r : Resource) (k n b : string)
  (st st1 : Config) (rc : RichStatus) :
  reaches_validation r → kind r = Some k → name r = Some n →
  fixed_bucket (PyStr.lower k) = Some b →
  validate_object r (at_validation r st) = Ok (rc, st1) → rs_ok rc = true →
  stored b n st = None →
  ∃ st',
    process r st =
      Ok (OK (Text "%s object processed successfully" [AStr k]), st') ∧
    process_and_post r st = Ok st' ∧
    stored b n st' = Some r ∧ sources st' !! rkey r = Some r ∧
    errors st' = errors st ∧ current_resource st' = None.
Proof.
  intros Hv Hk Hn Hb Hval Hrc Hfresh.
  destruct (validate_object_frame _ _ _ _ Hval) as ((Hc1 & Hs1 & He1 & _) & _).
  unfold at_validation in Hc1, Hs1, He1. simpl in Hc1, Hs1, He1.
  set (st1l := log Debug "%s: handling %s..."
                 [ARepr (resource_str r); AStr k] st1).
  assert (Hf1 : stored b n st1l = None).
  { unfold stored in *. simpl. by rewrite Hc1. }
  destruct (safe_store_fresh b n r true st1l Hn Hf1)
    as (st2 & Hst & Hc2 & Hs2 & He2 & _).
  assert (Hh : invoke_handler r k st1 = Ok st2).
  { by rewrite (invoke_fixed_bucket r k b st1 Hb). }
  assert (Hp : process r st =
    Ok (OK (Text "%s object processed successfully" [AStr k]),
        set_current_resource None st2)).
  { rewrite (process_validated r k st Hv Hk), Hval. simpl.
    rewrite Hrc. simpl. by rewrite Hh. }
  exists (set_current_resource None st2). split; [done|].
  split; [unfold process_and_post; by rewrite Hp|].
  split.
  { pose proof (stored_insert b b n n r st1l st2 Hc2) as Hs.
    rewrite decide_True in Hs by done. exact Hs. }
  split; [simpl; rewrite Hs2; unfold st1l; simpl; rewrite Hs1;
          apply lookup_insert_eq|].
  split; [simpl; rewrite He2; unfold st1l; simpl; by rewrite He1|done].
Qed.

End Footprint.

Lemma pass_writes_only_under_its_rkeys_witness :
  sources (Demo.after [Demo.mapping_bad; Demo.pragma]) !! "--internal--"
  = sources Demo.fresh !! "--internal--".
Proof.
  edestruct (pass_writes_only_under_its_rkeys (env := Demo.env)
               [Demo.mapping_bad; Demo.pragma] Demo.fresh
               (Demo.after [Demo.mapping_bad; Demo.pragma]) "--internal--")
    as (Hs & _).
  - intros r Hr.
    apply elem_of_cons in Hr as [->|Hr]; [discriminate|].
    apply elem_of_cons in Hr as [->|Hr]; [discriminate|].
    by apply elem_of_nil in Hr.
  - vm_compute. reflexivity.
  - exact Hs.
Defined.

Lemma fixed_handler_files_the_resource_witness :
  ∃ st',
    process (env := Demo.env) Demo.auth_a Demo.fresh =
      Ok (OK (Text "%s object processed successfully" [AStr "AuthService"]),
          st') ∧
    process_and_post (env := Demo.env) Demo.auth_a Demo.fresh = Ok st' ∧
    stored "auth_configs" "a" st' = Some Demo.auth_a ∧
    sources st' !! "auth.yaml" = Some Demo.auth_a ∧
    errors st' = errors Demo.fresh ∧ current_resource st' = None.
Proof.
  eapply (fixed_handler_files_the_resource (env := Demo.env)
            Demo.auth_a "AuthService" "a" "auth_configs" Demo.fresh).
  - repeat split; [discriminate|eexists; reflexivity].
  - reflexivity.
  - reflexivity.
  - reflexivity.
  - vm_compute. reflexivity.
  - reflexivity.
  - reflexivity.
Defined.
